(** * pyroute2: netlink socket transport (netlink/nlsocket.py)

    A shallow embedding of [Marshal.parse] and of the [NetlinkSocket]
    life cycle (policy registration, [bind], [close]), together with the
    properties of the transport specification that concern them.

    Python integers are unbounded and are modelled by [Z]; byte strings
    are [list byte]; dictionaries are [gmap]s, with the order of the
    keys next to the map where the code iterates a dict it was given.
    Exceptions are explicit:
    an operation returns an [outcome], and the state it mutated before
    raising is returned next to it. *)

From Stdlib Require Import ZArith List Lia.
From Stdlib Require Import Strings.Byte.
From stdpp Require Import base option list gmap strings.

Local Open Scope Z_scope.
#[local] Set Warnings "-clear-no-such-hyp".

(** ** Exceptions and outcomes *)

(** The exceptions that leave the functions of nlsocket.py. *)
Inductive exception : Type :=
| struct_error                 (* struct.unpack on a short byte string *)
| ValueError                   (* BytesIO.seek with a negative offset *)
| KeyError (key : Z)           (* del d[k] / d[k] on an absent key *)
| AssertionError
| TypeError                    (* arithmetic on None *)
| PoolExhausted                (* the allocator has no free id *)
| NotAllocated (port : Z)      (* free of an id that is not allocated *)
| socket_error (errno : Z).

Inductive outcome (A : Type) : Type :=
| Return (v : A)
| Raise (e : exception).
Arguments Return {A} v.
Arguments Raise {A} e.

(** ** struct.unpack / struct.pack on the formats the module uses

    Native byte order of the reference platform (little endian); with
    native alignment 'IH' is 4 + 2 = 6 bytes. *)
Module Struct.

Definition byte_val (b : byte) : Z := Z.of_N (Byte.to_N b).

Definition byte_of (z : Z) : byte :=
  match Byte.of_N (Z.to_N (z mod 256)) with
  | Some b => b
  | None => x00
  end.

(** little-endian unsigned value of a byte string *)
Fixpoint le_uint (bs : list byte) : Z :=
  match bs with
  | [] => 0
  | b :: bs' => byte_val b + 256 * le_uint bs'
  end.

(** [struct.unpack('IH', bs)]: raises struct.error unless [bs] has
    exactly 6 bytes. *)
Definition unpack_IH (bs : list byte) : option (Z * Z) :=
  if decide (List.length bs = 6%nat)
  then Some (le_uint (take 4 bs), le_uint (drop 4 bs))
  else None.

(** [struct.unpack('i', bs)[0]]: signed, 4 bytes. *)
Definition unpack_i (bs : list byte) : option Z :=
  if decide (List.length bs = 4%nat)
  then let u := le_uint bs in
       Some (if decide (u < 2 ^ 31) then u else u - 2 ^ 32)
  else None.

(** [struct.unpack('H', bs)[0]]: unsigned, 2 bytes. *)
Definition unpack_H (bs : list byte) : option Z :=
  if decide (List.length bs = 2%nat) then Some (le_uint bs) else None.

(** [struct.pack] of an [n]-byte little-endian field, used to write
    down concrete buffers. *)
Fixpoint pack_le (n : nat) (v : Z) : list byte :=
  match n with
  | O => []
  | S n' => byte_of v :: pack_le n' (v / 256)
  end.

Definition pack_I (v : Z) : list byte := pack_le 4 v.
Definition pack_H (v : Z) : list byte := pack_le 2 v.
Definition pack_i (v : Z) : list byte := pack_le 4 (v mod 2 ^ 32).

End Struct.

(** ** io.BytesIO, with the [length] attribute the module attaches to it *)
Module BytesIO.

Record t : Type := mk {
  getvalue : list byte;   (* the bytes held *)
  tell : Z;               (* stream position *)
  length : Z              (* the attribute [.length] set by the callers *)
}.

(** [io.BytesIO()] before its [length] attribute is assigned; the
    attribute is always assigned in the same statement as the first
    write, see [store]. *)
Definition new : t := mk [] 0 0.

(** [b.seek(n)] for [0 <= n] *)
Definition seek (n : Z) (b : t) : t := mk (getvalue b) n (length b).

(** [b.read()]: everything from the position to the end *)
Definition read_all (b : t) : list byte * t :=
  let bs := drop (Z.to_nat (tell b)) (getvalue b) in
  (bs, mk (getvalue b) (tell b + Z.of_nat (List.length bs)) (length b)).

(** [b.read(n)]: at most [n] bytes from the position *)
Definition read (n : nat) (b : t) : list byte * t :=
  let bs := take n (drop (Z.to_nat (tell b)) (getvalue b)) in
  (bs, mk (getvalue b) (tell b + Z.of_nat (List.length bs)) (length b)).

(** [b.write(bs)]: overwrite from the position, extending the buffer
    (zero filled when the position is past the end); returns the
    number of bytes written. *)
Definition write (bs : list byte) (b : t) : Z * t :=
  let p := Z.to_nat (tell b) in
  let old := getvalue b in
  let n := List.length bs in
  (Z.of_nat n,
   mk (take p old ++ replicate (p - List.length old) x00 ++ bs
         ++ drop (p + n) old)
      (tell b + Z.of_nat n) (length b)).

Definition set_length (n : Z) (b : t) : t := mk (getvalue b) (tell b) n.

(** [b.truncate(n)]: keep the first [n] bytes; position unchanged *)
Definition truncate (n : Z) (b : t) : t :=
  mk (take (Z.to_nat n) (getvalue b)) (tell b) (length b).

(** [b = io.BytesIO(); b.length = b.write(bs)], the idiom of
    [NetlinkSocket.get] and of the defragmentation store. *)
Definition store (bs : list byte) : t :=
  let '(n, b) := write bs new in set_length n b.

End BytesIO.

(** ** Messages and decoders

    The message classes ([nlmsg] and its subclasses) live in
    pyroute2.netlink, outside nlsocket.py.  [Marshal.parse] only uses a
    message through [msg['header']], [msg['event']], [msg.raw],
    [msg.length] and through what [decode()] raises, so a message is the
    record of those, and a message class is its decoding behaviour. *)

(** What [msg['header']['error']] can hold. *)
Inductive header_error : Type :=
| NetlinkError (code : Z)
| NetlinkHeaderDecodeError (info : string)
| NetlinkDecodeError (info : string).

#[local] Set Warnings "-register-all".
Inductive nlmsg : Type := Nlmsg {
  msg_header : gmap string Z;        (* numeric fields of msg['header'] *)
  msg_error : option header_error;   (* msg['header']['error'] *)
  msg_errmsg : option nlmsg;         (* msg['header']['errmsg'] *)
  msg_event : option string;         (* msg['event'] *)
  msg_attrs : list (string * Z);     (* the decoded payload fields *)
  msg_raw : list byte;               (* msg.raw *)
  msg_length : Z                     (* msg.length *)
}.

Definition set_error (e : option header_error) (msg : nlmsg) : nlmsg :=
  Nlmsg (msg_header msg) e (msg_errmsg msg) (msg_event msg)
        (msg_attrs msg) (msg_raw msg) (msg_length msg).

Definition set_errmsg (enc : nlmsg) (msg : nlmsg) : nlmsg :=
  Nlmsg (msg_header msg) (msg_error msg) (Some enc) (msg_event msg)
        (msg_attrs msg) (msg_raw msg) (msg_length msg).

Definition set_event (tag : string) (msg : nlmsg) : nlmsg :=
  Nlmsg (msg_header msg) (msg_error msg) (msg_errmsg msg) (Some tag)
        (msg_attrs msg) (msg_raw msg) (msg_length msg).

(** What [msg = cls(data); msg.decode()] does when the stream of [data]
    holds the bytes [buf] and stands at [pos]: it returns normally, or
    raises one of the two decode errors; in each case it leaves the
    stream at some position.  After [NetlinkDecodeError] the object
    [msg] keeps what was decoded before the failure. *)
Inductive decode_result : Type :=
| Decoded (msg : nlmsg) (pos : Z)
| HeaderDecodeFailed (info : string) (pos : Z)
| DecodeFailed (msg : nlmsg) (info : string) (pos : Z).

Definition msg_class : Type := list byte -> Z -> decode_result.

(** The names nlsocket.py imports from pyroute2.netlink. *)
Record netlink : Type := {
  NLMSG_ERROR : Z;            (* the type of an in-band error frame *)
  nlmsg_class : msg_class;    (* decoding with the generic class nlmsg *)
  nlmsg_new : nlmsg;          (* the object made by [nlmsg()] *)
  mtypes : gmap Z string      (* names of the message types *)
}.

(** ** Marshal *)

Record Marshal : Type := {
  msg_map : gmap Z msg_class;
  defragmentation : gmap nat BytesIO.t
}.

(** [Marshal()]: the class attribute [msg_map] is empty. *)
Definition Marshal_init : Marshal :=
  {| msg_map := ∅; defragmentation := ∅ |}.

Section Parse.

Variable nl : netlink.

(** Lines 67-73: the error code of an error frame.  The result is the
    value of the local [error]. *)
Definition read_error (data : BytesIO.t) (offset msg_type : Z)
  : outcome (option header_error) :=
  if decide (msg_type = NLMSG_ERROR nl) then
    let '(bs, _) := BytesIO.read 4 (BytesIO.seek (offset + 16) data) in
    match Struct.unpack_i bs with
    | None => Raise struct_error
    | Some c =>
        let code := Z.abs c in
        Return (if decide (code > 0) then Some (NetlinkError code) else None)
    end
  else Return None.

(** Lines 75-93: construct and decode the message that starts at
    [offset]; the result is the message and the position the stream is
    left at. *)
Definition decode_message (mp : gmap Z msg_class) (buf : list byte)
    (offset msg_type : Z) (error : option header_error)
  : outcome (nlmsg * Z) :=
  let cls := default (nlmsg_class nl) (mp !! msg_type) in
  match cls buf offset with
  | Decoded msg p =>
      let msg := set_error error msg in
      match error with
      | None => Return (msg, p)
      | Some _ =>
          (* try to decode encapsulated error message *)
          match Struct.unpack_H (take 2 (drop 24 (msg_raw msg))) with
          | None => Raise struct_error
          | Some enc_type =>
              let enc_class := default (nlmsg_class nl) (mp !! enc_type) in
              match enc_class (drop 20 (msg_raw msg)) 0 with
              | Decoded enc _ => Return (set_errmsg enc msg, p)
              | HeaderDecodeFailed e _ =>
                  Return (set_error (Some (NetlinkHeaderDecodeError e))
                                    (nlmsg_new nl), p)
              | DecodeFailed _ e _ =>
                  Return (set_error (Some (NetlinkDecodeError e)) msg, p)
              end
          end
      end
  | HeaderDecodeFailed e p =>
      Return (set_error (Some (NetlinkHeaderDecodeError e)) (nlmsg_new nl), p)
  | DecodeFailed msg e p =>
      Return (set_error (Some (NetlinkDecodeError e)) msg, p)
  end.

(** Lines 94-96. *)
Definition attach_event (msg : nlmsg) : nlmsg :=
  match msg_header msg !! "type"%string with
  | Some mtype =>
      if decide (mtype ∈ [1; 2; 3; 4])
      then set_event (default "none"%string (mtypes nl !! mtype)) msg
      else msg
  | None => msg
  end.

Definition fix_message (msg : nlmsg) : nlmsg := msg.

(** Lines 54-55: pick type and length.  The six bytes are read at the
    position the stream is at, which the loop then resets to [offset]. *)
Definition peek (data : BytesIO.t) : option (Z * Z) :=
  Struct.unpack_IH (BytesIO.read 6 data).1.

(** Line 59: the connection whose buffer the rest of [data] is saved
    in, when the message that starts at [offset] is not all there. *)
Definition deferred (sock : option nat) (length offset : Z)
    (data : BytesIO.t) : option nat :=
  match sock with
  | Some s =>
      if decide (length + offset > BytesIO.length data) then Some s else None
  | None => None
  end.

(** Lines 67-97: the message appended for the frame at [offset], and
    the position the stream is left at. *)
Definition decode_at (mp : gmap Z msg_class) (data : BytesIO.t)
    (offset msg_type : Z) : outcome (nlmsg * Z) :=
  match read_error data offset msg_type with
  | Raise e => Raise e
  | Return error =>
      match decode_message mp (BytesIO.getvalue data) offset msg_type error with
      | Raise e => Raise e
      | Return (msg, p) => Return (fix_message (attach_event msg), p)
      end
  end.

(** The [while] loop of [parse], lines 52-99.  [fuel] bounds the number
    of iterations: the loop need not end, since [offset] advances by
    whatever [msg.length] is.  [None] stands for fuel that ran out. *)
Fixpoint parse_loop (fuel : nat) (mp : gmap Z msg_class) (sock : option nat)
    (data : BytesIO.t) (offset : Z) (result : list nlmsg)
    (defrag : gmap nat BytesIO.t)
  : option (outcome (list nlmsg) * gmap nat BytesIO.t) :=
  match fuel with
  | O => None
  | S fuel' =>
    if decide (offset < BytesIO.length data) then
      match peek data with
      | None => Some (Raise struct_error, defrag)
      | Some (length, msg_type) =>
        if decide (offset < 0) then Some (Raise ValueError, defrag) else
        let data := BytesIO.seek offset data in
        match deferred sock length offset data with
        | Some s =>
            (* create save buffer; the truncated [data] is dropped *)
            Some (Return result,
                  <[s := BytesIO.store (BytesIO.read_all data).1]> defrag)
        | None =>
            match decode_at mp data offset msg_type with
            | Raise e => Some (Raise e, defrag)
            | Return (msg, p) =>
                parse_loop fuel' mp sock (BytesIO.seek p data)
                           (offset + msg_length msg) (result ++ [msg])
                           defrag
            end
        end
      end
    else Some (Return result, defrag)
  end.

(** [Marshal.parse(data, sock)].  [sock] is the identity of the
    connection, [None] for Python's [None]. *)
Definition parse (fuel : nat) (m : Marshal) (data : BytesIO.t)
    (sock : option nat) : option (outcome (list nlmsg) * Marshal) :=
  let data := BytesIO.seek 0 data in
  let '(data, defrag) :=
    match sock ≫= (λ s, pair s <$> defragmentation m !! s) with
    | Some (s, save) =>
        let '(bs, _) := BytesIO.read_all data in
        let '(_, save) := BytesIO.write bs save in
        let save :=
          BytesIO.set_length (BytesIO.length save + BytesIO.length data) save in
        (* discard save *)
        (BytesIO.seek 0 save, delete s (defragmentation m))
    | None => (data, defragmentation m)
    end in
  match parse_loop fuel (msg_map m) sock data 0 [] defrag with
  | None => None
  | Some (r, defrag') =>
      Some (r, {| msg_map := msg_map m; defragmentation := defrag' |})
  end.

End Parse.

(** ** The endpoint allocator *)

(** Modelled from the spec: the class [AddrPool] of
    pyroute2.iocore.addrpool is not part of the sources at hand.  The
    allocator contract says: [allocate] returns a previously unallocated
    integer of [[minaddr, maxaddr]] and marks it allocated, failing with
    [PoolExhausted] when no id is free; in reverse direction the highest
    free id is handed out first; [free] marks an id reusable and rejects
    an id that is not allocated. *)
Module AddrPool.

Record t : Type := mk {
  minaddr : Z;
  maxaddr : Z;
  reverse : bool;
  allocated : gset Z
}.

(** the ids of the range, in the order they are tried *)
Definition candidates (p : t) : list Z :=
  let ids := seqZ (minaddr p) (maxaddr p - minaddr p + 1) in
  if reverse p then rev ids else ids.

Definition alloc (p : t) : outcome Z * t :=
  match List.find (λ a, bool_decide (a ∉ allocated p)) (candidates p) with
  | Some a =>
      (Return a, mk (minaddr p) (maxaddr p) (reverse p) ({[a]} ∪ allocated p))
  | None => (Raise PoolExhausted, p)
  end.

Definition free (a : Z) (p : t) : outcome unit * t :=
  if decide (a ∈ allocated p)
  then (Return tt, mk (minaddr p) (maxaddr p) (reverse p) (allocated p ∖ {[a]}))
  else (Raise (NotAllocated a), p).

End AddrPool.

(** The module-level singleton [sockets], lines 116-118, as it is when
    the module is loaded. *)
Definition sockets : AddrPool.t :=
  AddrPool.mk 0x0 0x3ff true ∅.

(** ** NetlinkSocket *)

Record NetlinkSocket : Type := {
  epid : option Z;
  port : option Z;
  fixed : bool;
  pid : Z;
  groups : Z;
  marshal : Marshal;
  closed : bool        (* the state of the underlying socket.socket *)
}.

(** [NetlinkSocket(family, port, pid)], lines 127-148.  [getpid] is the
    value of [os.getpid()]. *)
Definition NetlinkSocket_init (getpid : Z) (port0 pid0 : option Z)
  : NetlinkSocket :=
  match pid0 with
  | None =>
      {| epid := None; port := port0; fixed := bool_decide (is_Some port0);
         pid := Z.land getpid 0x3fffff; groups := 0;
         marshal := Marshal_init; closed := false |}
  | Some p =>
      {| epid := None; port := Some 0; fixed := true;
         pid := if decide (p = 0) then getpid else p; groups := 0;
         marshal := Marshal_init; closed := false |}
  end.

Definition with_marshal (m : Marshal) (s : NetlinkSocket) : NetlinkSocket :=
  {| epid := epid s; port := port s; fixed := fixed s; pid := pid s;
     groups := groups s; marshal := m; closed := closed s |}.

Definition with_msg_map (mp : gmap Z msg_class) (s : NetlinkSocket)
  : NetlinkSocket :=
  with_marshal {| msg_map := mp;
                  defragmentation := defragmentation (marshal s) |} s.

(** *** Policies *)

(** The argument [policy] of the three policy functions: an int, a
    list, tuple or set of ints (given by its iteration order), or a
    dict.  Python iterates a dict in the order in which its keys were
    inserted, which a finite map does not record: a dict is given by
    its mapping [d] and by its keys in that order, [order]. *)
Inductive policy_arg : Type :=
| PolicyInt (k : Z)
| PolicySeq (ks : list Z)
| PolicyDict (d : gmap Z msg_class) (order : list Z).

(** [order] lists the keys of the dict [d], each of them once. *)
Definition dict_ok (d : gmap Z msg_class) (order : list Z) : Prop :=
  NoDup order ∧ ∀ k, k ∈ order ↔ is_Some (d !! k).

(** [register_policy(policy, msg_class)], lines 170-177. *)
Definition register_policy (policy : policy_arg) (cls : option msg_class)
    (s : NetlinkSocket) : outcome (gmap Z msg_class) * NetlinkSocket :=
  let policy :=
    match policy, cls with
    | PolicyInt k, Some c => PolicyDict {[k := c]} [k]
    | _, _ => policy
    end in
  match policy with
  | PolicyDict d _ =>
      (* for key in policy: msg_map[key] = policy[key]; each key of
         the dict is assigned once, so the order plays no part *)
      let mp := d ∪ msg_map (marshal s) in
      (Return mp, with_msg_map mp s)
  | _ => (Raise AssertionError, s)
  end.

(** The loop [for key in policy: del self.marshal.msg_map[key]]. *)
Fixpoint del_keys (policy : list Z) (mp : gmap Z msg_class)
  : outcome unit * gmap Z msg_class :=
  match policy with
  | [] => (Return tt, mp)
  | key :: rest =>
      match mp !! key with
      | Some _ => del_keys rest (delete key mp)
      | None => (Raise (KeyError key), mp)
      end
  end.

(** The keys a policy argument is iterated over, after lines 191-194 and
    212-213; [None] when the isinstance assertion fails.  A dict is
    accepted by [unregister_policy] only, where [list(policy)] is the
    list of its keys in insertion order. *)
Definition policy_keys (accept_dict : bool) (policy : policy_arg)
  : option (list Z) :=
  match policy with
  | PolicyInt k => Some [k]
  | PolicySeq ks => Some ks
  | PolicyDict d order => if accept_dict then Some order else None
  end.

(** [unregister_policy(policy)], lines 191-201. *)
Definition unregister_policy (policy : policy_arg) (s : NetlinkSocket)
  : outcome (gmap Z msg_class) * NetlinkSocket :=
  match policy_keys true policy with
  | None => (Raise AssertionError, s)
  | Some keys =>
      match del_keys keys (msg_map (marshal s)) with
      | (Return _, mp) => (Return mp, with_msg_map mp s)
      | (Raise e, mp) => (Raise e, with_msg_map mp s)
      end
  end.

(** The loop [for key in policy: ret[key] = self.marshal.msg_map[key]]. *)
Fixpoint collect_keys (policy : list Z) (mp ret : gmap Z msg_class)
  : outcome (gmap Z msg_class) :=
  match policy with
  | [] => Return ret
  | key :: rest =>
      match mp !! key with
      | Some c => collect_keys rest mp (<[key := c]> ret)
      | None => Raise (KeyError key)
      end
  end.

(** [get_policy_map(policy)], lines 209-221. *)
Definition get_policy_map (policy : option policy_arg) (s : NetlinkSocket)
  : outcome (gmap Z msg_class) :=
  match policy with
  | None => Return (msg_map (marshal s))
  | Some policy =>
      match policy_keys false policy with
      | None => Raise AssertionError
      | Some keys => collect_keys keys (msg_map (marshal s)) ∅
      end
  end.

(** *** bind and close *)

(** [socket.socket.bind(self, (epid, groups))] is the operating system's
    answer: [None] when the address was bound, [Some errno] when
    [socket.error] is raised.  The answer may change from one attempt to
    the next, so it also depends on the number of the attempt. *)
Definition os_bind : Type := nat -> Z -> Z -> option Z.

(** What a call of [bind] leaves behind: the socket, the allocator, and
    the addresses handed to [socket.socket.bind], in order. *)
Record bind_state : Type := {
  bs_sock : NetlinkSocket;
  bs_pool : AddrPool.t;
  bs_tried : list Z
}.

Definition with_port (a : Z) (s : NetlinkSocket) : NetlinkSocket :=
  {| epid := Some (pid s + Z.shiftl a 22); port := Some a; fixed := fixed s;
     pid := pid s; groups := groups s; marshal := marshal s;
     closed := closed s |}.

(** The loop [for i in range(1024)] with its [else] branch, lines
    246-259; [n] iterations are left and [i] is the current index.  An
    exception of [sockets.alloc()] is not a [socket.error], so the
    [except] clause lets it through. *)
Fixpoint bind_scan (os : os_bind) (n i : nat) (st : bind_state)
  : outcome unit * bind_state :=
  match n with
  | O => (Raise (socket_error 98), st)
  | S n' =>
      match AddrPool.alloc (bs_pool st) with
      | (Raise e, pool) =>
          (Raise e, {| bs_sock := bs_sock st; bs_pool := pool;
                       bs_tried := bs_tried st |})
      | (Return a, pool) =>
          let s := with_port a (bs_sock st) in
          let addr := pid s + Z.shiftl a 22 in
          let st' := {| bs_sock := s; bs_pool := pool;
                        bs_tried := bs_tried st ++ [addr] |} in
          match os i addr (groups s) with
          | None => (Return tt, st')
          | Some errno =>
              (* pass occupied sockets, raise other exceptions *)
              if decide (errno = 98) then bind_scan os n' (S i) st'
              else (Raise (socket_error errno), st')
          end
      end
  end.

(** The bound of [range(1024)], line 246. *)
Definition bind_attempts : nat := 1024.

(** [bind(groups, pid)], lines 232-259. *)
Definition bind (getpid : Z) (os : os_bind) (groups0 : Z) (pid0 : option Z)
    (s : NetlinkSocket) (pool : AddrPool.t) : outcome unit * bind_state :=
  let s :=
    match pid0 with
    | Some p =>
        {| epid := epid s; port := Some 0; fixed := true;
           pid := if decide (p = 0) then getpid else p; groups := groups s;
           marshal := marshal s; closed := closed s |}
    | None => s
    end in
  let s :=
    {| epid := epid s; port := port s; fixed := fixed s; pid := pid s;
       groups := groups0; marshal := marshal s; closed := closed s |} in
  if fixed s then
    (* if we have pre-defined port, use it strictly *)
    match port s with
    | None => (Raise TypeError, {| bs_sock := s; bs_pool := pool; bs_tried := [] |})
    | Some a =>
        let s := with_port a s in
        let addr := pid s + Z.shiftl a 22 in
        let st := {| bs_sock := s; bs_pool := pool; bs_tried := [addr] |} in
        match os O addr (groups s) with
        | None => (Return tt, st)
        | Some errno => (Raise (socket_error errno), st)
        end
    end
  else
    bind_scan os bind_attempts O
              {| bs_sock := s; bs_pool := pool; bs_tried := [] |}.

(** [close()], lines 273-279.  [socket.socket.close] may be called on a
    closed socket. *)
Definition close (s : NetlinkSocket) (pool : AddrPool.t)
  : outcome unit * NetlinkSocket * AddrPool.t :=
  let finish (s : NetlinkSocket) (pool : AddrPool.t) :=
    (Return tt,
     {| epid := epid s; port := port s; fixed := fixed s; pid := pid s;
        groups := groups s; marshal := marshal s; closed := true |},
     pool) in
  match epid s with
  | Some _ =>
      match port s with
      | None => (Raise AssertionError, s, pool)
      | Some a =>
          let released :=
            if fixed s then (Return tt, pool) else AddrPool.free a pool in
          match released with
          | (Raise e, pool') => (Raise e, s, pool')
          | (Return _, pool') =>
              finish {| epid := None; port := port s; fixed := fixed s;
                        pid := pid s; groups := groups s;
                        marshal := marshal s; closed := closed s |} pool'
          end
      end
  | None => finish s pool
  end.

(** [get()], lines 265-267, on the datagram [recv] returned. *)
Definition get (nl : netlink) (fuel : nat) (self_id : nat) (recv : list byte)
    (s : NetlinkSocket) : option (outcome (list nlmsg) * NetlinkSocket) :=
  match parse nl fuel (marshal s) (BytesIO.store recv) (Some self_id) with
  | None => None
  | Some (r, m) => Some (r, with_marshal m s)
  end.

(** ** A concrete pyroute2.netlink for worked examples *)

(** The fields of the 16-byte wire header: total length (4 bytes),
    message type (2), flags (2), sequence number (4) and sender process
    identity (4). *)
Definition header_fields (hb : list byte) : gmap string Z :=
  {[ "length"%string := Struct.le_uint (take 4 hb);
     "type"%string := Struct.le_uint (take 2 (drop 4 hb));
     "flags"%string := Struct.le_uint (take 2 (drop 6 hb));
     "sequence_number"%string := Struct.le_uint (take 4 (drop 8 hb));
     "pid"%string := Struct.le_uint (take 4 (drop 12 hb)) ]}.

(** Modelled from the spec: the generic class [nlmsg] is not part of the
    sources at hand.  The wire header is 16 bytes, and the body follows
    for [length - 16] bytes.  The generic decoder decodes that header
    and nothing of the body; the message it builds spans the declared
    length.  [msg.raw] holds the bytes of the whole message (lines 82-84
    take the embedded request from it), so the class takes [length]
    bytes off the stream and leaves it at the end of the message; the
    specification is silent on the position, and the general properties
    below that depend on where a class leaves the stream say so in a
    hypothesis.  A header cut short is a header decode error. *)
Definition nlmsg_decode : msg_class := λ buf pos,
  let avail := drop (Z.to_nat pos) buf in
  let hb := take 16 avail in
  if decide (List.length hb = 16%nat) then
    let len := Struct.le_uint (take 4 hb) in
    Decoded
      {| msg_header := header_fields hb;
         msg_error := None; msg_errmsg := None; msg_event := None;
         msg_attrs := [];
         msg_raw := take (Z.to_nat len) avail;
         msg_length := len |}
      (pos + len)
  else HeaderDecodeFailed "short header" (pos + Z.of_nat (List.length hb)).

(** Modelled from the spec: [nlmsg()], the empty message that replaces a
    message whose header could not be decoded.  It carries no header
    field, no payload and no bytes. *)
Definition nlmsg_empty : nlmsg :=
  {| msg_header := ∅; msg_error := None; msg_errmsg := None;
     msg_event := None; msg_attrs := []; msg_raw := []; msg_length := 0 |}.

(** Modelled from the spec: the error-frame type and the table of type
    names are constants of pyroute2.netlink.  The protocol reserves the
    types below 16 for control messages, type 2 being the error frame. *)
Definition pyroute2_netlink : netlink :=
  {| NLMSG_ERROR := 2;
     nlmsg_class := nlmsg_decode;
     nlmsg_new := nlmsg_empty;
     mtypes := {[ 1 := "NLMSG_NOOP"%string; 2 := "NLMSG_ERROR"%string;
                  3 := "NLMSG_DONE"%string; 4 := "NLMSG_OVERRUN"%string ]} |}.

(** A message on the wire: header and body. *)
Definition wire (type flags seq sender : Z) (body : list byte) : list byte :=
  Struct.pack_I (16 + Z.of_nat (List.length body)) ++ Struct.pack_H type
    ++ Struct.pack_H flags ++ Struct.pack_I seq ++ Struct.pack_I sender
    ++ body.

(** The 40-byte buffer of two 20-byte messages of types 16 and 17. *)
Definition two_messages : list byte :=
  wire 16 0 1 0 [x01; x02; x03; x04] ++ wire 17 0 2 0 [x05; x06; x07; x08].

(** ** The life of one socket next to the shared allocator *)

(** The port a socket would hand back on [close]. *)
Definition held_port (s : NetlinkSocket) : option Z :=
  match epid s with
  | Some _ => if fixed s then None else port s
  | None => None
  end.

(** What holds of a socket at all times: once it has an address it has
    a port, and the port it would hand back is allocated. *)
Definition holds_port (s : NetlinkSocket) (pool : AddrPool.t) : Prop :=
  match epid s with
  | Some _ =>
      ∃ a, port s = Some a ∧
           (fixed s = false → a ∈ AddrPool.allocated pool)
  | None => True
  end.

(** The states one socket and the allocator go through: the socket is
    constructed, bound, closed and has its marshal used, in any order and
    any number of times, while other sockets of the process allocate
    ports and free ports of their own. *)
Inductive reachable (getpid : Z) : NetlinkSocket -> AddrPool.t -> Prop :=
| reach_init port0 pid0 pool :
    reachable getpid (NetlinkSocket_init getpid port0 pid0) pool
| reach_bind s pool os g p r st :
    reachable getpid s pool ->
    bind getpid os g p s pool = (r, st) ->
    reachable getpid (bs_sock st) (bs_pool st)
| reach_close s pool r s' pool' :
    reachable getpid s pool ->
    close s pool = (r, s', pool') ->
    reachable getpid s' pool'
| reach_marshal s pool m :
    reachable getpid s pool ->
    reachable getpid (with_marshal m s) pool
| reach_other_alloc s pool r pool' :
    reachable getpid s pool ->
    AddrPool.alloc pool = (r, pool') ->
    reachable getpid s pool'
| reach_other_free s pool a r pool' :
    reachable getpid s pool ->
    held_port s ≠ Some a ->
    AddrPool.free a pool = (r, pool') ->
    reachable getpid s pool'.

(** The socket as [bind] has it when the scan starts. *)
Definition with_groups (g : Z) (s : NetlinkSocket) : NetlinkSocket :=
  {| epid := epid s; port := port s; fixed := fixed s; pid := pid s;
     groups := g; marshal := marshal s; closed := closed s |}.

(** The address composed from the process identifier of [s] and the
    port [a]. *)
Definition addr_of (s : NetlinkSocket) (a : Z) : Z := pid s + Z.shiftl a 22.

(** How the scan ended, in terms of the ports it allocated. *)
Definition scan_end (os : os_bind) (n i : nat) (s : NetlinkSocket)
    (ports : list Z)
    (allocated : gset Z) (candidates : list Z) (r : outcome unit) : Prop :=
  match r with
  | Return _ =>
      ∃ pre a, ports = pre ++ [a] ∧
        os (i + List.length pre)%nat (addr_of s a) (groups s) = None
  | Raise (socket_error e) =>
      if decide (e = 98) then List.length ports = n
      else ∃ pre a, ports = pre ++ [a] ∧
             os (i + List.length pre)%nat (addr_of s a) (groups s) = Some e
  | Raise PoolExhausted =>
      (List.length ports < n)%nat ∧
      ∀ a, a ∈ candidates → a ∈ allocated
  | Raise _ => False
  end.

(** Answers of the operating system used in the worked examples. *)
Definition os_accepts : os_bind := λ _ _ _, None.
Definition os_refuses : os_bind := λ _ _ _, Some 98.
Definition os_refuses_first : os_bind :=
  λ i _ _, match i with O => Some 98 | S _ => None end.

(** ** One turn of the scan *)

(** The turn of the loop of [parse] at the message that starts at
    [offset], the stream standing at [offset]: the loop appends [msg]
    to the result, leaves the stream at [p] and goes on [msg.length]
    bytes further. *)
Definition loop_appends (nl : netlink) (mp : gmap Z msg_class)
    (sock : option nat) (buf : list byte) (len offset : Z)
    (msg : nlmsg) (p : Z) : Prop :=
  ∀ (fuel : nat) (result : list nlmsg) (defrag : gmap nat BytesIO.t),
    parse_loop nl (S fuel) mp sock (BytesIO.mk buf offset len) offset
               result defrag
    = parse_loop nl fuel mp sock (BytesIO.mk buf p len)
                 (offset + msg_length msg) (result ++ [msg]) defrag.

(** ** Observations and inputs of the worked examples *)

(** What a caller reads off a message: header type, length, event tag
    and attached error. *)
Definition summary (msg : nlmsg)
  : option Z * Z * option string * option header_error :=
  (msg_header msg !! "type"%string, msg_length msg, msg_event msg,
   msg_error msg).

Definition summaries (r : option (outcome (list nlmsg) * Marshal))
  : option (outcome (list (option Z * Z * option string * option header_error))) :=
  match r with
  | Some (Return msgs, _) => Some (Return (summary <$> msgs))
  | Some (Raise e, _) => Some (Raise e)
  | None => None
  end.

(** The bytes kept for connection [s], if any. *)
Definition pending (m : Marshal) (s : nat) : option (list byte) :=
  BytesIO.getvalue <$> defragmentation m !! s.

(** The message of a successful decoding. *)
Definition decoded (r : decode_result) : nlmsg :=
  match r with
  | Decoded msg _ => msg
  | HeaderDecodeFailed _ _ => nlmsg_empty
  | DecodeFailed msg _ _ => msg
  end.

(** Consecutive calls of [parse] on the chunks of a stream, for one
    connection: the outcome of each call, and the marshal at the end. *)
Fixpoint feed (nl : netlink) (fuel : nat) (sock : option nat)
    (chunks : list (list byte)) (m : Marshal)
  : list (option (outcome (list (option Z * Z * option string
                                 * option header_error))))
    * Marshal :=
  match chunks with
  | [] => ([], m)
  | chunk :: rest =>
      let r := parse nl fuel m (BytesIO.store chunk) sock in
      match r with
      | Some (_, m') =>
          let '(rs, m'') := feed nl fuel sock rest m' in
          (summaries r :: rs, m'')
      | None => ([None], m)
      end
  end.

(** A message class with a fixed part of [n] bytes after the header, in
    the manner of the rtnl classes: decoding the payload fails when the
    body is shorter, the header staying decoded. *)
Definition fixed_body_class (n : nat) : msg_class := λ buf pos,
  match nlmsg_decode buf pos with
  | Decoded msg p =>
      let body := drop 16 (msg_raw msg) in
      if decide (n ≤ List.length body)%nat then Decoded msg p
      else DecodeFailed msg "short body"
                        (pos + 16 + Z.of_nat (List.length body))
  | r => r
  end.

(** A message class that reads its whole message: the 16-byte header,
    then the body of [length - 16] bytes, decoded as one unsigned number.
    The stream is left where the reading stopped, which is the end of
    the message when the message is all there. *)
Definition body_class : msg_class := λ buf pos,
  let avail := drop (Z.to_nat pos) buf in
  let hb := take 16 avail in
  if decide (List.length hb = 16%nat) then
    let len := Struct.le_uint (take 4 hb) in
    let body := take (Z.to_nat (len - 16)) (drop 16 avail) in
    let msg :=
      {| msg_header := header_fields hb;
         msg_error := None; msg_errmsg := None; msg_event := None;
         msg_attrs := [("value"%string, Struct.le_uint body)];
         msg_raw := hb ++ body;
         msg_length := len |} in
    let p := pos + 16 + Z.of_nat (List.length body) in
    if decide (Z.of_nat (List.length body) = len - 16) then Decoded msg p
    else DecodeFailed msg "short body" p
  else HeaderDecodeFailed "short header" (pos + Z.of_nat (List.length hb)).

(** A message class whose header decoder accepts nothing; it raises
    before it reads. *)
Definition rejecting_class : msg_class := λ _ pos,
  HeaderDecodeFailed "unsupported header" pos.

(** An error frame: the error code, then the request that failed. *)
Definition error_frame (code : Z) (request : list byte) : list byte :=
  wire 2 0 1 0 (Struct.pack_i code ++ request).

(** The header of a 32-byte request of type 16, the body left out. *)
Definition request_header : list byte :=
  Struct.pack_I 32 ++ Struct.pack_H 16 ++ Struct.pack_H 5
    ++ Struct.pack_I 1 ++ Struct.pack_I 0.

Definition marshal_with (mp : gmap Z msg_class) : Marshal :=
  {| msg_map := mp; defragmentation := ∅ |}.

(** * Properties *)

(** ** Policy map *)

Section Policy.

Implicit Types (mp ret : gmap Z msg_class) (keys pre post : list Z).


(** Deleting distinct present keys succeeds and removes exactly them. *)
Lemma del_keys_return keys mp :
  NoDup keys → (∀ x, x ∈ keys → is_Some (mp !! x)) →
  ∃ mp', del_keys keys mp = (Return tt, mp') ∧
         ∀ x, mp' !! x = if decide (x ∈ keys) then None else mp !! x.
Proof.
  revert mp. induction keys as [|key rest IH]; intros mp Hnd Hin; cbn [del_keys].
  - exists mp. split; [done|]. intros x.
    case_decide; [set_solver|done].
  - apply NoDup_cons in Hnd as [Hfresh Hnd].
    destruct (Hin key) as [c ->]; [set_solver|].
    destruct (IH (delete key mp) Hnd) as (mp' & -> & Hmp').
    { intros x Hx. destruct (Hin x) as [c' Hc']; [set_solver|].
      exists c'. rewrite lookup_delete_ne; [done|]. by intros ->. }
    exists mp'. split; [done|]. intros x. rewrite Hmp'.
    destruct (decide (x = key)) as [->|Hne].
    + rewrite decide_False by done.
      rewrite (decide_True (P := key ∈ key :: rest)) by set_solver.
      by rewrite lookup_delete_eq.
    + rewrite lookup_delete_ne by done.
      repeat case_decide; try done; set_solver.
Qed.

(** A key absent from the map makes the run of deletions fail. *)
Lemma del_keys_absent keys mp k :
  k ∈ keys → mp !! k = None →
  ∃ k' mp', del_keys keys mp = (Raise (KeyError k'), mp').
Proof.
  revert mp. induction keys as [|key rest IH]; intros mp Hk Hnone; cbn [del_keys].
  - by apply elem_of_nil in Hk.
  - destruct (mp !! key) as [c|] eqn:Hkey; [|by eauto].
    apply elem_of_cons in Hk as [->|Hk]; [congruence|].
    apply IH; [done|]. apply lookup_delete_None. by right.
Qed.

Lemma collect_keys_return keys mp ret :
  (∀ x, x ∈ keys → is_Some (mp !! x)) →
  ∃ sub, collect_keys keys mp ret = Return sub ∧
         ∀ x, sub !! x = if decide (x ∈ keys) then mp !! x else ret !! x.
Proof.
  revert ret. induction keys as [|key rest IH]; intros ret Hin; cbn [collect_keys].
  - exists ret. split; [done|]. intros x.
    case_decide; [set_solver|done].
  - destruct (Hin key) as [c Hc]; [set_solver|]. rewrite Hc.
    destruct (IH (<[key := c]> ret)) as (sub & -> & Hsub).
    { intros x Hx. apply Hin. set_solver. }
    exists sub. split; [done|]. intros x. rewrite Hsub.
    destruct (decide (x = key)) as [->|Hne].
    + rewrite (decide_True (P := key ∈ key :: rest)) by set_solver.
      rewrite lookup_insert_eq. by case_decide.
    + rewrite lookup_insert_ne by done.
      repeat case_decide; try done; set_solver.
Qed.

Lemma collect_keys_absent keys mp ret k :
  k ∈ keys → mp !! k = None →
  ∃ k', collect_keys keys mp ret = Raise (KeyError k').
Proof.
  revert ret. induction keys as [|key rest IH]; intros ret Hk Hnone; cbn [collect_keys].
  - by apply elem_of_nil in Hk.
  - destruct (mp !! key) as [c|] eqn:Hkey; [|by eauto].
    apply elem_of_cons in Hk as [->|Hk]; [congruence|]. by apply IH.
Qed.

End Policy.

(** The policy map of a socket after [with_msg_map]. *)
Lemma msg_map_with_msg_map (mp : gmap Z msg_class) (s : NetlinkSocket) :
  msg_map (marshal (with_msg_map mp s)) = mp.
Proof. done. Qed.

(** C9 (amended).  Removal and lookup of policies by key.  Whenever a
    requested key is absent from the policy map, [unregister_policy] and
    [get_policy_map] (called with keys) fail with [KeyError], the
    unknown-policy error.  When all requested keys are present,
    [get_policy_map] returns exactly the sub-map of those keys, and
    [unregister_policy] removes exactly those keys provided no key is
    requested twice. *)
Theorem policy_removal_and_lookup
    (s : NetlinkSocket) (policy : policy_arg) (keys : list Z) :
  policy_keys true policy = Some keys →
  let mp := msg_map (marshal s) in
  ((∃ k, k ∈ keys ∧ mp !! k = None) →
     (∃ k mp', unregister_policy policy s
               = (Raise (KeyError k), with_msg_map mp' s)) ∧
     (policy_keys false policy = Some keys →
      ∃ k, get_policy_map (Some policy) s = Raise (KeyError k)))
  ∧
  ((∀ k, k ∈ keys → is_Some (mp !! k)) →
     (policy_keys false policy = Some keys →
      ∃ sub, get_policy_map (Some policy) s = Return sub ∧
             ∀ k, sub !! k = if decide (k ∈ keys) then mp !! k else None) ∧
     (NoDup keys →
      ∃ mp', unregister_policy policy s = (Return mp', with_msg_map mp' s) ∧
             ∀ k, mp' !! k = if decide (k ∈ keys) then None else mp !! k)).
Proof.
  intros Hkeys mp. split.
  - intros (k & Hk & Hnone). split.
    + destruct (del_keys_absent keys mp k Hk Hnone) as (k' & mp' & Hdel).
      exists k', mp'. unfold unregister_policy. rewrite Hkeys.
      fold mp. by rewrite Hdel.
    + intros Hkeys'.
      destruct (collect_keys_absent keys mp ∅ k Hk Hnone) as (k' & Hcol).
      exists k'. unfold get_policy_map. by rewrite Hkeys'.
  - intros Hall. split.
    + intros Hkeys'.
      destruct (collect_keys_return keys mp ∅ Hall) as (sub & Hcol & Hsub).
      exists sub. unfold get_policy_map. rewrite Hkeys'. split; [done|].
      intros k. rewrite Hsub. case_decide; [done|]. apply lookup_empty.
    + intros Hnd.
      destruct (del_keys_return keys mp Hnd Hall) as (mp' & Hdel & Hmp').
      exists mp'. unfold unregister_policy. rewrite Hkeys. fold mp.
      by rewrite Hdel.
Qed.

(** The two halves of C9 at work: keys 16 and 17 of a three-entry map,
    and the absent key 99. *)
Lemma policy_removal_and_lookup_witness :
  let s := with_msg_map {[16 := nlmsg_decode; 17 := nlmsg_decode;
                          18 := nlmsg_decode]}
                        (NetlinkSocket_init 4242 None None) in
  (∃ k mp', unregister_policy (PolicySeq [16; 99]) s
            = (Raise (KeyError k), with_msg_map mp' s)) ∧
  (∃ mp', unregister_policy (PolicySeq [16; 17]) s
          = (Return mp', with_msg_map mp' s) ∧
          ∀ k, mp' !! k = if decide (k ∈ [16; 17]) then None
                          else msg_map (marshal s) !! k).
Proof.
  intros s. split.
  - apply (policy_removal_and_lookup s (PolicySeq [16; 99]) [16; 99]
             eq_refl).
    exists 99. split; [set_solver|]. subst s. vm_compute. reflexivity.
  - apply (policy_removal_and_lookup s (PolicySeq [16; 17]) [16; 17]
             eq_refl).
    + intros k Hk. apply elem_of_cons in Hk as [->|Hk]; [by eexists|].
      apply elem_of_cons in Hk as [->|Hk]; [by eexists|].
      by apply elem_of_nil in Hk.
    + repeat constructor; set_solver.
Defined.

(** C9, the claim as stated fails: every requested key is present, and
    yet [unregister_policy] fails, because the key is listed twice and
    is gone when the loop reaches it again. *)
Lemma unregister_policy_repeated_key :
  let s := with_msg_map {[16 := nlmsg_decode]}
                        (NetlinkSocket_init 4242 None None) in
  (∀ k, k ∈ [16; 16] → is_Some (msg_map (marshal s) !! k)) ∧
  (unregister_policy (PolicySeq [16; 16]) s).1 = Raise (KeyError 16).
Proof.
  intros s. split.
  - intros k Hk. assert (k = 16) as -> by set_solver. by eexists.
  - reflexivity.
Qed.



(** ** The allocator *)

Section AddrPoolFacts.

Implicit Types (p : AddrPool.t) (a : Z).

Lemma elem_of_candidates p a :
  a ∈ AddrPool.candidates p ↔ AddrPool.minaddr p ≤ a ≤ AddrPool.maxaddr p.
Proof.
  unfold AddrPool.candidates.
  destruct (AddrPool.reverse p);
    rewrite <- ?Permutation_rev, elem_of_seqZ; lia.
Qed.

Lemma NoDup_candidates p : NoDup (AddrPool.candidates p).
Proof.
  unfold AddrPool.candidates.
  destruct (AddrPool.reverse p);
    rewrite <- ?Permutation_rev; apply NoDup_seqZ.
Qed.

Lemma length_candidates p :
  List.length (AddrPool.candidates p)
  = Z.to_nat (AddrPool.maxaddr p - AddrPool.minaddr p + 1).
Proof.
  unfold AddrPool.candidates.
  destruct (AddrPool.reverse p);
    rewrite <- ?Permutation_rev, length_seqZ; done.
Qed.

(** [alloc] hands out a free id of the range and marks it. *)
Lemma alloc_Return p a p' :
  AddrPool.alloc p = (Return a, p') →
  a ∈ AddrPool.candidates p ∧ (a ∉ AddrPool.allocated p) ∧
  p' = AddrPool.mk (AddrPool.minaddr p) (AddrPool.maxaddr p)
                   (AddrPool.reverse p) ({[a]} ∪ AddrPool.allocated p).
Proof.
  unfold AddrPool.alloc. intros H.
  destruct (List.find _ _) as [b|] eqn:Hfind; [|discriminate].
  injection H as -> <-.
  apply find_some in Hfind as [Hin Hfree].
  apply bool_decide_eq_true in Hfree.
  split_and!; [by apply list_elem_of_In|done|done].
Qed.

(** [alloc] fails only with [PoolExhausted], only when every id of the
    range is allocated, and then changes nothing. *)
Lemma alloc_Raise p e p' :
  AddrPool.alloc p = (Raise e, p') →
  e = PoolExhausted ∧ p' = p ∧
  ∀ a, a ∈ AddrPool.candidates p → a ∈ AddrPool.allocated p.
Proof.
  unfold AddrPool.alloc. intros H.
  destruct (List.find _ _) as [b|] eqn:Hfind; [discriminate|].
  injection H as <- <-. split_and!; [done|done|].
  intros a Ha. apply list_elem_of_In in Ha.
  pose proof (find_none _ _ Hfind a Ha) as Hb. cbn beta in Hb.
  apply bool_decide_eq_false in Hb. by apply dec_stable.
Qed.

Lemma alloc_exhausted p :
  (∀ a, a ∈ AddrPool.candidates p → a ∈ AddrPool.allocated p) →
  AddrPool.alloc p = (Raise PoolExhausted, p).
Proof.
  intros Hall. destruct (AddrPool.alloc p) as [[a|e] p'] eqn:Halloc.
  - apply alloc_Return in Halloc as (Hin & Hfree & _).
    by destruct Hfree; apply Hall.
  - by apply alloc_Raise in Halloc as (-> & -> & _).
Qed.

(** Distinct ids of a range are no more than the range holds; if they
    are as many, they are the whole range. *)
Lemma candidates_pigeonhole p (ports : list Z) :
  NoDup ports → (∀ a, a ∈ ports → a ∈ AddrPool.candidates p) →
  (List.length ports ≤ List.length (AddrPool.candidates p))%nat ∧
  (List.length ports = List.length (AddrPool.candidates p) →
   ∀ a, a ∈ AddrPool.candidates p → a ∈ ports).
Proof.
  intros Hnd Hsub.
  pose proof (NoDup_submseteq _ _ Hnd Hsub) as Hms. split.
  - by apply submseteq_length.
  - intros Hlen a Ha.
    assert (ports ≡ₚ AddrPool.candidates p) as Hperm.
    { apply submseteq_length_Permutation; [done|lia]. }
    by rewrite Hperm.
Qed.

End AddrPoolFacts.

(** ** bind *)

Section Bind.

Implicit Types (st : bind_state) (os : os_bind) (ports : list Z).

Lemma with_port_twice a b s : with_port b (with_port a s) = with_port b s.
Proof. done. Qed.

(** The scan allocates one fresh port per attempt and gives none back:
    when it ends, every port it allocated is allocated still. *)
Lemma bind_scan_spec os n i st r st' :
  bind_scan os n i st = (r, st') →
  ∃ ports,
    NoDup ports ∧
    (∀ a, a ∈ ports →
          a ∈ AddrPool.candidates (bs_pool st) ∧
          a ∉ AddrPool.allocated (bs_pool st)) ∧
    AddrPool.candidates (bs_pool st') = AddrPool.candidates (bs_pool st) ∧
    AddrPool.allocated (bs_pool st')
      = list_to_set ports ∪ AddrPool.allocated (bs_pool st) ∧
    bs_tried st' = bs_tried st ++ (addr_of (bs_sock st) <$> ports) ∧
    bs_sock st' = match last ports with
                  | Some a => with_port a (bs_sock st)
                  | None => bs_sock st
                  end ∧
    (List.length ports ≤ n)%nat ∧
    scan_end os n i (bs_sock st) ports
             (AddrPool.allocated (bs_pool st'))
             (AddrPool.candidates (bs_pool st)) r.
Proof.
  revert i st. induction n as [|n IH]; intros i st Hscan; cbn [bind_scan] in Hscan.
  - injection Hscan as <- <-. exists []. split_and!; try done.
    + constructor.
    + set_solver.
    + set_solver.
    + by rewrite app_nil_r.
  - destruct (AddrPool.alloc (bs_pool st)) as [[a|e] pool] eqn:Halloc.
    + apply alloc_Return in Halloc as (Hcand & Hfree & ->).
      destruct (os i _ _) as [errno|] eqn:Hos.
      * destruct (decide (errno = 98)) as [->|Hne].
        -- destruct (IH _ _ Hscan)
             as (ports & Hnd & Hin & Hc & Hal & Htr & Hs & Hlen & Hend).
           cbn [bs_pool bs_sock bs_tried AddrPool.allocated] in *.
           exists (a :: ports). split_and!.
           ++ constructor; [|done]. intros Ha. apply Hin in Ha. set_solver.
           ++ intros b [->|Hb]%elem_of_cons; [done|].
              apply Hin in Hb as [? ?]. split; [done|set_solver].
           ++ done.
           ++ rewrite Hal. set_solver.
           ++ rewrite Htr, <- app_assoc. done.
           ++ rewrite Hs. destruct ports as [|b ports]; [done|].
              change (last (a :: b :: ports)) with (last (b :: ports)).
              destruct (last (b :: ports)) eqn:Hl;
                [apply with_port_twice|by apply last_None in Hl].
           ++ cbn. lia.
           ++ destruct r as [[]|e]; cbn in *.
              ** destruct Hend as (pre & b & -> & Hb).
                 exists (a :: pre), b. split; [done|].
                 cbn. by rewrite <- Nat.add_succ_comm.
              ** destruct e; try done.
                 --- destruct Hend as [Hl Hall]. split; [lia|done].
                 --- destruct (decide (errno = 98)); [by f_equal|].
                     destruct Hend as (pre & b & -> & Hb).
                     exists (a :: pre), b. split; [done|].
                     cbn. by rewrite <- Nat.add_succ_comm.
        -- injection Hscan as <- <-.
           exists [a]. cbn. split_and!; try done.
           ++ repeat constructor. set_solver.
           ++ intros b Hb. assert (b = a) as -> by set_solver. done.
           ++ set_solver.
           ++ lia.
           ++ rewrite decide_False by done. exists [], a. split; [done|].
              cbn. by rewrite Nat.add_0_r.
      * injection Hscan as <- <-.
        exists [a]. cbn. split_and!; try done.
        -- repeat constructor. set_solver.
        -- intros b Hb. assert (b = a) as -> by set_solver. done.
        -- set_solver.
        -- lia.
        -- exists [], a. split; [done|]. cbn. by rewrite Nat.add_0_r.
    + apply alloc_Raise in Halloc as (-> & -> & Hall).
      injection Hscan as <- <-.
      exists []. cbn. split_and!; try done.
      * constructor.
      * set_solver.
      * set_solver.
      * by rewrite app_nil_r.
      * lia.
      * lia.
Qed.

End Bind.

Section BindClaims.

Implicit Types (st : bind_state) (os : os_bind) (s : NetlinkSocket).

Lemma bind_unfixed getpid os g s pool :
  fixed s = false →
  bind getpid os g None s pool
  = bind_scan os bind_attempts 0
      {| bs_sock := with_groups g s; bs_pool := pool; bs_tried := [] |}.
Proof.
  intros Hf. unfold bind, with_groups. cbn [fixed port].
  rewrite Hf. reflexivity.
Qed.

Lemma bind_fixed getpid os g p0 s pool :
  (is_Some p0 ∨ fixed s = true) →
  let s1 := match p0 with
            | Some p =>
                {| epid := epid s; port := Some 0; fixed := true;
                   pid := if decide (p = 0) then getpid else p;
                   groups := g; marshal := marshal s; closed := closed s |}
            | None => with_groups g s
            end in
  bind getpid os g p0 s pool
  = match port s1 with
    | None => (Raise TypeError,
               {| bs_sock := s1; bs_pool := pool; bs_tried := [] |})
    | Some a =>
        let st := {| bs_sock := with_port a s1; bs_pool := pool;
                     bs_tried := [addr_of s1 a] |} in
        match os O (addr_of s1 a) g with
        | None => (Return tt, st)
        | Some errno => (Raise (socket_error errno), st)
        end
    end.
Proof.
  intros Hfix. unfold bind, with_groups.
  destruct p0 as [p|]; cbn [fixed port]; [done|].
  destruct Hfix as [[? [=]]|Hf]. rewrite Hf. reflexivity.
Qed.

(** With every id of the range allocated the scan stops in its first
    iteration, before any address is tried. *)
Lemma bind_scan_exhausted os n i st :
  (0 < n)%nat →
  (∀ a, a ∈ AddrPool.candidates (bs_pool st) →
        a ∈ AddrPool.allocated (bs_pool st)) →
  bind_scan os n i st = (Raise PoolExhausted, st).
Proof.
  intros Hn Hall. destruct n as [|n]; [by apply Nat.lt_irrefl in Hn|].
  cbn [bind_scan]. rewrite alloc_exhausted by done. by destruct st.
Qed.

(** A scan of as many iterations as the range has ids ends with
    "address in use" only after trying them all, all of them free at
    the start. *)
Lemma bind_scan_in_use os n i st st' :
  List.length (AddrPool.candidates (bs_pool st)) = n →
  bind_scan os n i st = (Raise (socket_error 98), st') →
  List.length (bs_tried st') = (List.length (bs_tried st) + n)%nat ∧
  ∀ a, a ∈ AddrPool.candidates (bs_pool st) →
       a ∉ AddrPool.allocated (bs_pool st).
Proof.
  intros Hlen Hscan.
  apply bind_scan_spec in Hscan
    as (ports & Hnd & Hin & _ & _ & Htr & _ & _ & Hend).
  unfold scan_end in Hend. rewrite decide_True in Hend by reflexivity.
  split.
  - by rewrite Htr, length_app, length_fmap, Hend.
  - intros a Ha.
    destruct (candidates_pigeonhole (bs_pool st) ports Hnd) as [_ Hall].
    { intros b Hb. by apply Hin. }
    apply (Hin a), Hall; [congruence|exact Ha].
Qed.

(** Such a scan does end so when the range is free and every address
    is refused. *)
Lemma bind_scan_refused os n i st r st' :
  List.length (AddrPool.candidates (bs_pool st)) = n →
  (∀ a, a ∈ AddrPool.candidates (bs_pool st) →
        a ∉ AddrPool.allocated (bs_pool st)) →
  (∀ j addr, os j addr (groups (bs_sock st)) = Some 98) →
  bind_scan os n i st = (r, st') →
  r = Raise (socket_error 98).
Proof.
  intros Hlen Hfree Hos Hscan.
  apply bind_scan_spec in Hscan
    as (ports & Hnd & Hin & _ & Hal & _ & _ & _ & Hend).
  unfold scan_end in Hend.
  destruct r as [[]|e].
  - destruct Hend as (pre & a & _ & Ha). rewrite Hos in Ha. discriminate.
  - destruct e; try (exfalso; exact Hend).
    + destruct Hend as [Hlt Hall]. exfalso.
      assert (List.length (AddrPool.candidates (bs_pool st))
              ≤ List.length ports)%nat as Hle.
      { apply submseteq_length, NoDup_submseteq; [apply NoDup_candidates|].
        intros a Ha. specialize (Hall a Ha). rewrite Hal in Hall.
        specialize (Hfree a Ha).
        apply elem_of_union in Hall as [Hall|Hall]; [|contradiction].
        by apply elem_of_list_to_set in Hall. }
      rewrite Hlen in Hle. apply Nat.lt_nge in Hlt. contradiction.
    + destruct (decide (errno = 98)) as [->|Hne]; [reflexivity|].
      destruct Hend as (pre & a & _ & Ha). rewrite Hos in Ha.
      injection Ha as Ha. congruence.
Qed.

Lemma candidates_sockets (A : gset Z) a :
  a ∈ AddrPool.candidates (AddrPool.mk 0 0x3ff true A) ↔ 0 ≤ a ≤ 1023.
Proof. rewrite elem_of_candidates. reflexivity. Qed.

Lemma length_candidates_sockets (A : gset Z) :
  List.length (AddrPool.candidates (AddrPool.mk 0 0x3ff true A))
  = bind_attempts.
Proof. rewrite length_candidates. reflexivity. Qed.

Lemma bind_attempts_pos : (0 < bind_attempts)%nat.
Proof. apply Nat.lt_0_succ. Qed.

Lemma bind_attempts_Z : Z.of_nat bind_attempts = 1024.
Proof. reflexivity. Qed.

End BindClaims.

(** C3 (amended).  Non-fixed [bind] on the pool of 1024 ports.  When all
    1024 ports are already allocated, [bind] fails at its first
    allocation with the allocator's pool-exhaustion error, before any
    bind attempt.  [bind] fails with "address in use" only after exactly
    1024 attempts, which takes a pool whose 1024 ports were all free;
    and it does fail so when each attempt is refused with "address in
    use". *)
Theorem bind_exhaustion
    (getpid : Z) (os : os_bind) (g : Z) (s : NetlinkSocket) (A : gset Z) :
  fixed s = false →
  let pool := AddrPool.mk 0 0x3ff true A in
  ((∀ a, 0 ≤ a ≤ 1023 → a ∈ A) →
   ∃ st, bind getpid os g None s pool = (Raise PoolExhausted, st) ∧
         bs_tried st = [] ∧ bs_pool st = pool)
  ∧
  (∀ st, bind getpid os g None s pool = (Raise (socket_error 98), st) →
         Z.of_nat (List.length (bs_tried st)) = 1024 ∧
         ∀ a, 0 ≤ a ≤ 1023 → a ∉ A)
  ∧
  ((∀ a, 0 ≤ a ≤ 1023 → a ∉ A) → (∀ i addr, os i addr g = Some 98) →
   ∃ st, bind getpid os g None s pool = (Raise (socket_error 98), st) ∧
         Z.of_nat (List.length (bs_tried st)) = 1024).
Proof.
  intros Hf pool.
  assert (Hfull : ∀ st, bind getpid os g None s pool
                        = (Raise (socket_error 98), st) →
                        Z.of_nat (List.length (bs_tried st)) = 1024 ∧
                        ∀ a, 0 ≤ a ≤ 1023 → a ∉ A).
  { intros st Hbind. rewrite bind_unfixed in Hbind by exact Hf.
    apply bind_scan_in_use in Hbind as [Hlen Hfree];
      [|apply length_candidates_sockets].
    split.
    - rewrite Hlen. apply bind_attempts_Z.
    - intros a Ha. apply (Hfree a). by apply candidates_sockets. }
  split; [|split; [exact Hfull|]].
  - intros Hall. rewrite bind_unfixed by exact Hf.
    rewrite bind_scan_exhausted.
    + eexists. split; [reflexivity|]. split; reflexivity.
    + apply bind_attempts_pos.
    + intros a Ha. apply Hall. by apply candidates_sockets in Ha.
  - intros Hfree Hos.
    destruct (bind getpid os g None s pool) as [r st] eqn:Hbind.
    assert (r = Raise (socket_error 98)) as ->.
    { rewrite bind_unfixed in Hbind by exact Hf.
      eapply bind_scan_refused; [| | |exact Hbind].
      - apply length_candidates_sockets.
      - intros a Ha. apply Hfree. by apply candidates_sockets in Ha.
      - exact Hos. }
    exists st. split; [reflexivity|]. by apply Hfull.
Qed.

(** C3 with an untouched pool and an operating system that refuses every
    address. *)
Lemma bind_exhaustion_witness :
  fixed (NetlinkSocket_init 4242 None None) = false ∧
  ∃ st, bind 4242 os_refuses 0 None (NetlinkSocket_init 4242 None None)
             (AddrPool.mk 0 0x3ff true ∅)
        = (Raise (socket_error 98), st) ∧
        Z.of_nat (List.length (bs_tried st)) = 1024.
Proof.
  split; [reflexivity|].
  refine (proj2 (proj2 (bind_exhaustion 4242 os_refuses 0
                          (NetlinkSocket_init 4242 None None) ∅ eq_refl))
            _ _).
  - intros a _. apply not_elem_of_empty.
  - intros i addr. reflexivity.
Defined.

(** C3, the claim as stated fails: on the pool with every port of the
    range allocated [bind] raises the pool-exhaustion error, and no
    address was tried. *)
Lemma bind_on_exhausted_pool :
  let pool := AddrPool.mk 0 0x3ff true (list_to_set (seqZ 0 1024)) in
  (∀ a, 0 ≤ a ≤ 1023 → a ∈ AddrPool.allocated pool) ∧
  ∃ st, bind 4242 os_refuses 0 None (NetlinkSocket_init 4242 None None) pool
        = (Raise PoolExhausted, st) ∧ bs_tried st = [].
Proof.
  intros pool.
  assert (Hall : ∀ a, 0 ≤ a ≤ 1023 → a ∈ AddrPool.allocated pool).
  { intros a Ha. apply elem_of_list_to_set, elem_of_seqZ. lia. }
  split; [exact Hall|].
  rewrite bind_unfixed by reflexivity.
  rewrite bind_scan_exhausted.
  - eexists. split; reflexivity.
  - apply bind_attempts_pos.
  - intros a Ha. apply Hall. by apply candidates_sockets in Ha.
Qed.

(** C4 (amended).  In non-fixed [bind] an attempt refused with "address
    in use" does not give its port back: each attempt allocates a fresh
    port, and when [bind] returns, with success or with an error, every
    port it allocated, those of the failed attempts included, is still
    allocated. *)
Theorem bind_keeps_ports
    (getpid : Z) (os : os_bind) (g : Z) (s : NetlinkSocket)
    (pool : AddrPool.t) (r : outcome unit) (st : bind_state) :
  fixed s = false →
  bind getpid os g None s pool = (r, st) →
  ∃ ports,
    bs_tried st = addr_of s <$> ports ∧
    NoDup ports ∧
    (∀ a, a ∈ ports → a ∉ AddrPool.allocated pool) ∧
    AddrPool.allocated (bs_pool st)
      = list_to_set ports ∪ AddrPool.allocated pool.
Proof.
  intros Hf Hbind. rewrite bind_unfixed in Hbind by exact Hf.
  apply bind_scan_spec in Hbind
    as (ports & Hnd & Hin & _ & Hal & Htr & _ & _ & _).
  exists ports. split; [exact Htr|]. split; [exact Hnd|].
  split; [|exact Hal]. intros a Ha. by apply Hin.
Qed.

(** C4 on the untouched pool when the first address is refused. *)
Lemma bind_keeps_ports_witness :
  fixed (NetlinkSocket_init 4242 None None) = false ∧
  ∃ ports,
    bs_tried (bind 4242 os_refuses_first 0 None
                (NetlinkSocket_init 4242 None None) sockets).2
      = addr_of (NetlinkSocket_init 4242 None None) <$> ports ∧
    NoDup ports ∧
    (∀ a, a ∈ ports → a ∉ AddrPool.allocated sockets) ∧
    AddrPool.allocated
      (bs_pool (bind 4242 os_refuses_first 0 None
                  (NetlinkSocket_init 4242 None None) sockets).2)
      = list_to_set ports ∪ AddrPool.allocated sockets.
Proof.
  split; [reflexivity|].
  refine (bind_keeps_ports 4242 os_refuses_first 0
            (NetlinkSocket_init 4242 None None) sockets
            (bind 4242 os_refuses_first 0 None
               (NetlinkSocket_init 4242 None None) sockets).1
            _ eq_refl _).
  apply surjective_pairing.
Defined.

(** C4, the claim as stated fails: the first address is refused, the
    second is bound, and when [bind] has returned port 1023 of the
    refused attempt is allocated still, next to port 1022 the socket
    holds. *)
Lemma bind_leaks_refused_port :
  ∃ st, bind 4242 os_refuses_first 0 None
             (NetlinkSocket_init 4242 None None) sockets = (Return tt, st) ∧
        bs_tried st = [4242 + Z.shiftl 1023 22; 4242 + Z.shiftl 1022 22] ∧
        port (bs_sock st) = Some 1022 ∧
        1023 ∈ AddrPool.allocated (bs_pool st).
Proof.
  eexists. split; [vm_compute; reflexivity|].
  split; [vm_compute; reflexivity|]. split; [vm_compute; reflexivity|].
  refine (bool_decide_unpack _ _). vm_compute. exact I.
Qed.

(** ** close *)

Section Close.

Implicit Types (s : NetlinkSocket) (pool : AddrPool.t).

Lemma held_port_Some s a :
  held_port s = Some a ↔
  is_Some (epid s) ∧ fixed s = false ∧ port s = Some a.
Proof.
  unfold held_port. destruct (epid s), (fixed s); split;
    try (intros (H1 & H2 & H3)); try (intros H); try discriminate;
    try (by destruct H1); eauto.
Qed.

Lemma reachable_holds_port getpid s pool :
  reachable getpid s pool → holds_port s pool.
Proof.
  unfold holds_port.
  induction 1 as [port0 pid0 pool|s pool os g p r st _ IH Hbind
                 |s pool r s' pool' _ IH Hclose
                 |s pool m _ IH
                 |s pool r pool' _ IH Halloc
                 |s pool a r pool' _ IH Hne Hfree].
  - by destruct pid0.
  - destruct p as [p|].
    + rewrite bind_fixed in Hbind by (left; by eexists).
      cbn [port] in Hbind.
      destruct (os _ _ _); injection Hbind as <- <-; cbn;
        (eexists; split; [reflexivity|done]).
    + destruct (fixed s) eqn:Hf.
      * rewrite bind_fixed in Hbind by by right.
        cbn [port with_groups] in Hbind.
        destruct (port s) as [a|] eqn:Hp.
        -- destruct (os _ _ _); injection Hbind as <- <-; cbn;
             rewrite Hf; (eexists; split; [reflexivity|done]).
        -- injection Hbind as <- <-. cbn [bs_sock bs_pool with_groups epid port fixed].
           destruct (epid s); [|done].
           destruct IH as (a & [=] & _).
      * rewrite bind_unfixed in Hbind by done.
        apply bind_scan_spec in Hbind
          as (ports & _ & Hin & _ & Hal & _ & Hs & _ & _).
        cbn [bs_sock bs_pool] in Hs, Hal, Hin. rewrite Hs, Hal.
        destruct (last ports) as [b|] eqn:Hlast.
        -- cbn [with_port epid port]. exists b. split; [done|]. intros _.
           apply last_Some in Hlast as [pre ->].
           apply elem_of_union_l, elem_of_list_to_set, elem_of_app.
           right. apply list_elem_of_singleton. reflexivity.
        -- cbn [with_groups epid port fixed].
           destruct (epid s); [|done].
           destruct IH as (a & Hp & Ha). exists a. split; [done|].
           intros _. apply elem_of_union_r. by apply Ha.
  - unfold close in Hclose.
    destruct (epid s) as [e|] eqn:He.
    + destruct (port s) as [a|] eqn:Hp.
      * destruct (fixed s) eqn:Hf.
        -- by injection Hclose as <- <- <-.
        -- unfold AddrPool.free in Hclose. case_decide.
           ++ by injection Hclose as <- <- <-.
           ++ injection Hclose as <- <- <-. rewrite He, Hp, Hf. exact IH.
      * injection Hclose as <- <- <-. rewrite He, Hp. exact IH.
    + injection Hclose as <- <- <-. cbn. done.
  - done.
  - destruct (epid s); [|done].
    destruct IH as (b & Hp & Hb). exists b. split; [done|].
    intros Hf. specialize (Hb Hf). destruct r as [c|e].
    + apply alloc_Return in Halloc as (_ & _ & ->).
      by apply elem_of_union_r.
    + by apply alloc_Raise in Halloc as (_ & -> & _).
  - destruct (epid s) eqn:He; [|done].
    destruct IH as (b & Hp & Hb). exists b. split; [done|].
    intros Hf. specialize (Hb Hf).
    unfold AddrPool.free in Hfree.
    case_decide; injection Hfree as <- <-; [|done].
    apply elem_of_difference. split; [done|].
    intros ->%elem_of_singleton. apply Hne, held_port_Some.
    rewrite He. by eauto.
Qed.

End Close.

(** C8.  [close] hands a port back to the allocator only when the
    socket holds a pool-allocated one (it has an address and is not
    fixed), and then that port is allocated and is the only change to
    the pool; a socket with a fixed address leaves the pool alone.  A
    second [close] raises nothing and changes nothing: neither the
    socket nor the pool. *)
Theorem close_releases_once
    (getpid : Z) (s : NetlinkSocket) (pool : AddrPool.t) :
  reachable getpid s pool →
  ∃ s' pool',
    close s pool = (Return tt, s', pool') ∧
    epid s' = None ∧ closed s' = true ∧
    match held_port s with
    | Some a =>
        a ∈ AddrPool.allocated pool ∧
        AddrPool.allocated pool' = AddrPool.allocated pool ∖ {[a]}
    | None => pool' = pool
    end ∧
    close s' pool' = (Return tt, s', pool').
Proof.
  intros Hreach. apply reachable_holds_port in Hreach.
  unfold holds_port in Hreach. unfold close, held_port.
  destruct (epid s) as [e|] eqn:He.
  - destruct Hreach as (a & Hp & Ha). rewrite Hp.
    destruct (fixed s) eqn:Hf.
    + eexists _, _. split; [reflexivity|]. cbn. repeat split; done.
    + specialize (Ha eq_refl). unfold AddrPool.free.
      rewrite decide_True by done.
      eexists _, _. split; [reflexivity|]. cbn. repeat split; done.
  - eexists _, _. split; [reflexivity|]. cbn. repeat split; done.
Qed.

(** C8 on a socket bound to a pool port. *)
Lemma close_releases_once_witness :
  ∃ st,
    bind 4242 os_accepts 0 None (NetlinkSocket_init 4242 None None) sockets
    = (Return tt, st) ∧
    ∃ s' pool',
      close (bs_sock st) (bs_pool st) = (Return tt, s', pool') ∧
      epid s' = None ∧ closed s' = true ∧
      match held_port (bs_sock st) with
      | Some a =>
          a ∈ AddrPool.allocated (bs_pool st) ∧
          AddrPool.allocated pool' = AddrPool.allocated (bs_pool st) ∖ {[a]}
      | None => pool' = bs_pool st
      end ∧
      close s' pool' = (Return tt, s', pool').
Proof.
  eexists. split; [vm_compute; reflexivity|].
  apply (close_releases_once 4242).
  eapply (reach_bind 4242 _ _ os_accepts 0 None);
    [apply (reach_init 4242 None None sockets)|].
  vm_compute. reflexivity.
Defined.

(** ** Marshal.parse *)

Section ParseFacts.

Variable nl : netlink.

Implicit Types (mp : gmap Z msg_class) (data : BytesIO.t) (msg : nlmsg).

Lemma store_eq (bs : list byte) :
  BytesIO.store bs
  = BytesIO.mk bs (Z.of_nat (List.length bs)) (Z.of_nat (List.length bs)).
Proof.
  unfold BytesIO.store, BytesIO.write, BytesIO.set_length. cbn.
  by rewrite drop_nil, app_nil_r.
Qed.

Lemma peek_eq (buf : list byte) (pos len : Z) :
  peek (BytesIO.mk buf pos len)
  = Struct.unpack_IH (take 6 (drop (Z.to_nat pos) buf)).
Proof. reflexivity. Qed.

(** The event tag leaves the rest of the message alone, and is attached
    to the types 1, 2, 3 and 4 only. *)
Lemma attach_event_error msg : msg_error (attach_event nl msg) = msg_error msg.
Proof.
  unfold attach_event. destruct (msg_header msg !! _); [|done].
  by case_decide.
Qed.

Lemma attach_event_errmsg msg :
  msg_errmsg (attach_event nl msg) = msg_errmsg msg.
Proof.
  unfold attach_event. destruct (msg_header msg !! _); [|done].
  by case_decide.
Qed.

Lemma attach_event_length msg :
  msg_length (attach_event nl msg) = msg_length msg.
Proof.
  unfold attach_event. destruct (msg_header msg !! _); [|done].
  by case_decide.
Qed.

Lemma attach_event_other msg (t : Z) :
  msg_header msg !! "type"%string = Some t → t ∉ [1; 2; 3; 4] →
  attach_event nl msg = msg.
Proof.
  intros Ht Hout. unfold attach_event. rewrite Ht.
  by rewrite decide_False.
Qed.

Lemma attach_event_tagged msg (t : Z) :
  msg_header msg !! "type"%string = Some t → t ∈ [1; 2; 3; 4] →
  msg_event (attach_event nl msg)
  = Some (default "none"%string (mtypes nl !! t)).
Proof.
  intros Ht Hin. unfold attach_event. rewrite Ht.
  by rewrite decide_True.
Qed.

(** One turn of the loop on a message that is all there. *)
Lemma parse_loop_step fuel mp sock (buf : list byte) (pos len offset : Z)
    result defrag (l ty : Z) msg (p : Z) :
  0 ≤ offset < len →
  peek (BytesIO.mk buf pos len) = Some (l, ty) →
  deferred sock l offset (BytesIO.mk buf offset len) = None →
  decode_at nl mp (BytesIO.mk buf offset len) offset ty = Return (msg, p) →
  parse_loop nl (S fuel) mp sock (BytesIO.mk buf pos len) offset result defrag
  = parse_loop nl fuel mp sock (BytesIO.mk buf p len)
               (offset + msg_length msg) (result ++ [msg]) defrag.
Proof.
  intros [Hlo Hhi] Hpeek Hdef Hdec. cbn [parse_loop BytesIO.length].
  rewrite decide_True by done. rewrite Hpeek.
  rewrite decide_False by lia.
  change (BytesIO.seek offset (BytesIO.mk buf pos len))
    with (BytesIO.mk buf offset len).
  cbn zeta. rewrite Hdef, Hdec. reflexivity.
Qed.

(** The loop ends when the offset has reached the length. *)
Lemma parse_loop_end fuel mp sock data (offset : Z) result defrag :
  BytesIO.length data ≤ offset →
  parse_loop nl (S fuel) mp sock data offset result defrag
  = Some (Return result, defrag).
Proof. intros Hend. cbn [parse_loop]. by rewrite decide_False by lia. Qed.

(** A message that is not all there is put aside with all that follows
    it, when a connection is given. *)
Lemma parse_loop_defer fuel mp (s : nat) (buf : list byte)
    (pos len offset : Z) result defrag (l ty : Z) :
  0 ≤ offset < len →
  peek (BytesIO.mk buf pos len) = Some (l, ty) →
  l + offset > len →
  parse_loop nl (S fuel) mp (Some s) (BytesIO.mk buf pos len) offset
             result defrag
  = Some (Return result,
          <[s := BytesIO.store (drop (Z.to_nat offset) buf)]> defrag).
Proof.
  intros [Hlo Hhi] Hpeek Hlong. cbn [parse_loop BytesIO.length].
  rewrite decide_True by done. rewrite Hpeek.
  rewrite decide_False by lia.
  change (BytesIO.seek offset (BytesIO.mk buf pos len))
    with (BytesIO.mk buf offset len).
  cbn zeta. unfold deferred. cbn [BytesIO.length].
  rewrite decide_True by done. reflexivity.
Qed.

(** Fewer than six bytes at the stream position: [struct.unpack]
    raises, whether or not a connection is given. *)
Lemma parse_loop_short fuel mp sock (buf : list byte) (pos len offset : Z)
    result defrag :
  offset < len →
  (List.length (drop (Z.to_nat pos) buf) < 6)%nat →
  parse_loop nl (S fuel) mp sock (BytesIO.mk buf pos len) offset result defrag
  = Some (Raise struct_error, defrag).
Proof.
  intros Hhi Hshort. cbn [parse_loop BytesIO.length].
  rewrite decide_True by done. rewrite peek_eq. unfold Struct.unpack_IH.
  rewrite decide_False; [done|].
  rewrite length_take. lia.
Qed.

(** A frame that is not an error frame, decoded by its class. *)
Lemma decode_at_plain mp (buf : list byte) (len offset ty : Z) msg (p : Z) :
  ty ≠ NLMSG_ERROR nl →
  default (nlmsg_class nl) (mp !! ty) buf offset = Decoded msg p →
  decode_at nl mp (BytesIO.mk buf offset len) offset ty
  = Return (attach_event nl (set_error None msg), p).
Proof.
  intros Hty Hdec. unfold decode_at, read_error, decode_message.
  rewrite decide_False by done. cbn [BytesIO.getvalue]. by rewrite Hdec.
Qed.

(** A frame whose class cannot decode the header: the empty message
    takes its place. *)
Lemma decode_at_header_failure mp (buf : list byte) (len offset ty : Z)
    (info : string) (p : Z) :
  ty ≠ NLMSG_ERROR nl →
  default (nlmsg_class nl) (mp !! ty) buf offset = HeaderDecodeFailed info p →
  decode_at nl mp (BytesIO.mk buf offset len) offset ty
  = Return (attach_event nl
              (set_error (Some (NetlinkHeaderDecodeError info)) (nlmsg_new nl)),
            p).
Proof.
  intros Hty Hdec. unfold decode_at, read_error, decode_message.
  rewrite decide_False by done. cbn [BytesIO.getvalue]. by rewrite Hdec.
Qed.

(** [parse] when nothing is pending for the connection. *)
Lemma parse_fresh fuel (m : Marshal) (bs : list byte) sock :
  sock ≫= (λ s, defragmentation m !! s) = None →
  parse nl fuel m (BytesIO.store bs) sock
  = match parse_loop nl fuel (msg_map m) sock
            (BytesIO.mk bs 0 (Z.of_nat (List.length bs))) 0 []
            (defragmentation m) with
    | None => None
    | Some (r, defrag') =>
        Some (r, {| msg_map := msg_map m; defragmentation := defrag' |})
    end.
Proof.
  intros Hnone. unfold parse. rewrite store_eq.
  assert (sock ≫= (λ s, pair s <$> defragmentation m !! s) = None) as ->.
  { destruct sock as [s|]; [|done]. cbn in *. by rewrite Hnone. }
  reflexivity.
Qed.

End ParseFacts.

(** C6 (amended).  A 40-byte buffer of two well-formed 20-byte messages
    of types 16 and 17, each decoded by its class into a message of that
    type and of length 20, the class of the first leaving the stream at
    the end of its message (the header of the next message is read
    where the stream stands): [parse] yields exactly the two messages,
    in buffer order, as their classes decoded them.  [parse] adds no
    event tag, the tag being attached to the types 1, 2, 3 and 4
    only. *)
Theorem two_messages_untagged
    (nl : netlink) (m : Marshal) (sock : option nat) (buf : list byte)
    (d1 d2 : nlmsg) (p2 : Z) (fuel : nat) :
  sock ≫= (λ s, defragmentation m !! s) = None →
  List.length buf = 40%nat →
  Struct.unpack_IH (take 6 buf) = Some (20, 16) →
  Struct.unpack_IH (take 6 (drop 20 buf)) = Some (20, 17) →
  NLMSG_ERROR nl ≠ 16 → NLMSG_ERROR nl ≠ 17 →
  default (nlmsg_class nl) (msg_map m !! 16) buf 0 = Decoded d1 20 →
  default (nlmsg_class nl) (msg_map m !! 17) buf 20 = Decoded d2 p2 →
  msg_header d1 !! "type"%string = Some 16 → msg_length d1 = 20 →
  msg_header d2 !! "type"%string = Some 17 → msg_length d2 = 20 →
  parse nl (3 + fuel) m (BytesIO.store buf) sock
  = Some (Return [set_error None d1; set_error None d2], m) ∧
  msg_event (set_error None d1) = msg_event d1 ∧
  msg_event (set_error None d2) = msg_event d2.
Proof.
  intros Hfresh Hlen Hp1 Hp2 He1 He2 Hd1 Hd2 Ht1 Hl1 Ht2 Hl2.
  split; [|done].
  rewrite parse_fresh by done. rewrite Hlen.
  change (3 + fuel)%nat with (S (S (S fuel))).
  assert (Hdef : ∀ o, 0 ≤ o ≤ 20 →
            deferred sock 20 o (BytesIO.mk buf o (Z.of_nat 40)) = None).
  { intros o Ho. unfold deferred. destruct sock; [|done].
    cbn [BytesIO.length]. by rewrite decide_False by lia. }
  rewrite (parse_loop_step nl _ _ _ _ _ _ 0 _ _ 20 16
             (attach_event nl (set_error None d1)) 20).
  2: lia.
  2: by rewrite peek_eq.
  2: by apply Hdef.
  2: by apply decode_at_plain.
  rewrite attach_event_length. cbn [msg_length set_error]. rewrite Hl1.
  rewrite (parse_loop_step nl _ _ _ _ _ _ (0 + 20) _ _ 20 17
             (attach_event nl (set_error None d2)) p2).
  2: lia.
  2: by rewrite peek_eq.
  2: by apply Hdef.
  2: by apply decode_at_plain.
  rewrite attach_event_length. cbn [msg_length set_error]. rewrite Hl2.
  rewrite parse_loop_end by (cbn [BytesIO.length]; lia).
  rewrite (attach_event_other nl (set_error None d1) 16),
    (attach_event_other nl (set_error None d2) 17); try done.
  - by destruct m.
  - set_solver.
  - set_solver.
Qed.

(** C6 on the buffer [two_messages], the class registered for both
    types reading the whole message. *)
Lemma two_messages_untagged_witness :
  let m := marshal_with {[16 := body_class; 17 := body_class]} in
  parse pyroute2_netlink 3 m (BytesIO.store two_messages) (Some 7%nat)
  = Some (Return [set_error None (decoded (body_class two_messages 0));
                  set_error None (decoded (body_class two_messages 20))],
          m) ∧
  msg_event (set_error None (decoded (body_class two_messages 0)))
  = msg_event (decoded (body_class two_messages 0)) ∧
  msg_event (set_error None (decoded (body_class two_messages 20)))
  = msg_event (decoded (body_class two_messages 20)).
Proof.
  intros m.
  apply (two_messages_untagged pyroute2_netlink m (Some 7%nat)
           two_messages _ _ 40 0);
    try (vm_compute; reflexivity);
    intros H; vm_compute in H; discriminate H.
Defined.

(** C6, the claim as stated fails: the two messages of types 16 and 17
    come back in order, and neither carries an event tag. *)
Lemma types_16_and_17_carry_no_event :
  List.length two_messages = 40%nat ∧
  summaries (parse pyroute2_netlink 3
               (marshal_with {[16 := body_class; 17 := body_class]})
               (BytesIO.store two_messages) None)
  = Some (Return [(Some 16, 20, None, None); (Some 17, 20, None, None)]).
Proof. split; vm_compute; reflexivity. Qed.

(** The error code of the frame at [offset], lines 69-70. *)
Lemma read_error_frame (nl : netlink) (buf : list byte) (len offset c : Z) :
  Struct.unpack_i (take 4 (drop (Z.to_nat (offset + 16)) buf)) = Some c →
  read_error nl (BytesIO.mk buf offset len) offset (NLMSG_ERROR nl)
  = Return (if decide (Z.abs c > 0) then Some (NetlinkError (Z.abs c))
            else None).
Proof.
  intros Hcode. unfold read_error. rewrite decide_True by done.
  unfold BytesIO.read, BytesIO.seek. cbn [BytesIO.getvalue BytesIO.tell].
  by rewrite Hcode.
Qed.

(** C7 (amended).  The scan has reached, at [offset], a message of the
    error-frame type that is all there, and the stream stands at
    [offset], so that the six bytes read for length and type are those
    of the message; the signed code at offset 16 into the message is
    [c].  If [c] is zero and the class of the frame decodes it, the
    message appended carries no error.  If [c] is not zero and the
    frame and the request embedded in it both decode, the message
    carries the kernel error of magnitude [|c|] and the decoded
    request.  If the decoding of the frame itself fails, the message
    carries that decode error, whatever the code; a kernel error is
    then not attached. *)
Theorem error_frame_attachment
    (nl : netlink) (mp : gmap Z msg_class) (sock : option nat)
    (buf : list byte) (len offset l c : Z) :
  0 ≤ offset < len →
  Struct.unpack_IH (take 6 (drop (Z.to_nat offset) buf))
  = Some (l, NLMSG_ERROR nl) →
  deferred sock l offset (BytesIO.mk buf offset len) = None →
  Struct.unpack_i (take 4 (drop (Z.to_nat (offset + 16)) buf)) = Some c →
  let cls := default (nlmsg_class nl) (mp !! NLMSG_ERROR nl) in
  (c = 0 → ∀ d p,
     cls buf offset = Decoded d p →
     let msg := attach_event nl (set_error None d) in
     loop_appends nl mp sock buf len offset msg p ∧
     msg_error msg = None)
  ∧
  (c ≠ 0 → ∀ d p t enc p',
     cls buf offset = Decoded d p →
     Struct.unpack_H (take 2 (drop 24 (msg_raw d))) = Some t →
     default (nlmsg_class nl) (mp !! t) (drop 20 (msg_raw d)) 0
     = Decoded enc p' →
     let msg := attach_event nl
                  (set_errmsg enc
                     (set_error (Some (NetlinkError (Z.abs c))) d)) in
     loop_appends nl mp sock buf len offset msg p ∧
     msg_error msg = Some (NetlinkError (Z.abs c)) ∧
     msg_errmsg msg = Some enc)
  ∧
  (∀ d info p,
     cls buf offset = DecodeFailed d info p →
     let msg := attach_event nl
                  (set_error (Some (NetlinkDecodeError info)) d) in
     loop_appends nl mp sock buf len offset msg p ∧
     msg_error msg = Some (NetlinkDecodeError info))
  ∧
  (∀ info p,
     cls buf offset = HeaderDecodeFailed info p →
     let msg := attach_event nl
                  (set_error (Some (NetlinkHeaderDecodeError info))
                             (nlmsg_new nl)) in
     loop_appends nl mp sock buf len offset msg p ∧
     msg_error msg = Some (NetlinkHeaderDecodeError info)).
Proof.
  intros Hoff Hpeek Hdef Hcode cls.
  pose proof (read_error_frame nl buf len offset c Hcode) as Herr.
  assert (Hstep : ∀ msg p,
            decode_at nl mp (BytesIO.mk buf offset len) offset (NLMSG_ERROR nl)
            = Return (msg, p) →
            loop_appends nl mp sock buf len offset msg p).
  { intros msg p Hdec fuel result defrag.
    apply (parse_loop_step nl fuel mp sock buf offset len offset result
             defrag l (NLMSG_ERROR nl) msg p); done. }
  unfold decode_at in Hstep. rewrite Herr in Hstep.
  unfold decode_message, fix_message in Hstep.
  cbn [BytesIO.getvalue] in Hstep. fold cls in Hstep.
  split_and!.
  - intros -> d p Hd. cbn zeta. split; [|by rewrite attach_event_error].
    apply Hstep. rewrite Hd. by rewrite decide_False by (cbn; lia).
  - intros Hc d p t enc p' Hd Ht Henc. cbn zeta.
    split; [|by rewrite attach_event_error, attach_event_errmsg].
    apply Hstep. rewrite Hd, decide_True by lia.
    cbn [msg_raw set_error]. by rewrite Ht, Henc.
  - intros d info p Hd. cbn zeta. split; [|by rewrite attach_event_error].
    apply Hstep. by rewrite Hd.
  - intros info p Hd. cbn zeta. split; [|by rewrite attach_event_error].
    apply Hstep. by rewrite Hd.
Qed.

(** C7 on the error frame with code -5 that embeds [request_header],
    alone in its buffer, every class being the generic one: [parse]
    returns the one message, with the kernel error 5 and the decoded
    request. *)
Lemma error_frame_attachment_witness :
  let frame := error_frame (-5) request_header in
  ∃ msg,
    parse pyroute2_netlink 2 Marshal_init (BytesIO.store frame) None
    = Some (Return [msg], Marshal_init) ∧
    msg_error msg = Some (NetlinkError 5) ∧
    msg_errmsg msg = Some (decoded (nlmsg_decode request_header 0)).
Proof.
  intros frame.
  assert (Hpeek : Struct.unpack_IH (take 6 (drop (Z.to_nat 0) frame))
                  = Some (36, NLMSG_ERROR pyroute2_netlink))
    by (vm_compute; reflexivity).
  assert (Hcode : Struct.unpack_i (take 4 (drop (Z.to_nat (0 + 16)) frame))
                  = Some (-5))
    by (vm_compute; reflexivity).
  destruct (error_frame_attachment pyroute2_netlink ∅ None frame 36 0 36 (-5)
              ltac:(lia) Hpeek eq_refl Hcode) as (_ & Hnonzero & _ & _).
  destruct (Hnonzero ltac:(lia) (decoded (nlmsg_decode frame 0)) 36 16
              (decoded (nlmsg_decode request_header 0)) 32)
    as (Happ & Herr & Henc); try (vm_compute; reflexivity).
  eexists. split; [|split; [exact Herr|exact Henc]].
  rewrite parse_fresh by done.
  change (Z.of_nat (List.length frame)) with 36.
  change (msg_map Marshal_init) with (∅ : gmap Z msg_class).
  change (defragmentation Marshal_init) with (∅ : gmap nat BytesIO.t).
  rewrite (Happ 1%nat [] ∅).
  rewrite parse_loop_end; [reflexivity|].
  vm_compute. discriminate.
Defined.

(** C7, the claim as stated fails: the frame carries the code -5, the
    class registered for error frames expects a longer body and fails
    to decode the payload, and the message carries that decode error,
    not a kernel error. *)
Lemma kernel_error_replaced_by_decode_error :
  let frame := error_frame (-5) request_header in
  Struct.unpack_i (take 4 (drop 16 frame)) = Some (-5) ∧
  summaries (parse pyroute2_netlink 2
               (marshal_with {[2 := fixed_body_class 64]})
               (BytesIO.store frame) None)
  = Some (Return [(Some 2, 36, Some "NLMSG_ERROR"%string,
                   Some (NetlinkDecodeError "short body"))]).
Proof. split; vm_compute; reflexivity. Qed.

(** ** Where the scan goes wrong *)

Section ParseDefects.

Variable nl : netlink.

(** After a header decode error the loop goes on at the old offset plus
    the length of the empty message: the declared length of the message
    that failed plays no part. *)
Lemma header_failure_advance fuel (mp : gmap Z msg_class) sock
    (buf : list byte) (pos len offset : Z) result defrag (l ty : Z)
    (info : string) (p : Z) :
  0 ≤ offset < len →
  peek (BytesIO.mk buf pos len) = Some (l, ty) →
  deferred sock l offset (BytesIO.mk buf offset len) = None →
  ty ≠ NLMSG_ERROR nl →
  default (nlmsg_class nl) (mp !! ty) buf offset = HeaderDecodeFailed info p →
  ∃ msg,
    msg_error msg = Some (NetlinkHeaderDecodeError info) ∧
    parse_loop nl (S fuel) mp sock (BytesIO.mk buf pos len) offset
               result defrag
    = parse_loop nl fuel mp sock (BytesIO.mk buf p len)
                 (offset + msg_length (nlmsg_new nl)) (result ++ [msg])
                 defrag.
Proof.
  intros Hoff Hpeek Hdef Hty Hcls.
  exists (attach_event nl
            (set_error (Some (NetlinkHeaderDecodeError info)) (nlmsg_new nl))).
  split; [by rewrite attach_event_error|].
  rewrite (parse_loop_step nl fuel mp sock buf pos len offset result defrag
             l ty _ p Hoff Hpeek Hdef
             (decode_at_header_failure nl mp buf len offset ty info p
                Hty Hcls)).
  by rewrite attach_event_length.
Qed.

(** A chunk of one to five bytes with nothing pending: the first
    [struct.unpack] raises, and nothing is kept of the chunk. *)
Lemma short_chunk_raises fuel (m : Marshal) sock (chunk : list byte) :
  sock ≫= (λ s, defragmentation m !! s) = None →
  (0 < List.length chunk < 6)%nat →
  parse nl (S fuel) m (BytesIO.store chunk) sock
  = Some (Raise struct_error, m).
Proof.
  intros Hfresh [Hlo Hhi]. rewrite parse_fresh by done.
  rewrite parse_loop_short.
  - by destruct m.
  - lia.
  - by rewrite drop_0.
Qed.

(** A chunk that leaves the first message incomplete, six bytes or more
    being there with what was pending: nothing is returned, and the one
    buffer of the connection holds all the bytes in order. *)
Lemma partial_chunk_kept fuel (m : Marshal) (s : nat)
    (old chunk : list byte) (l ty : Z) :
  defragmentation m !! s
  = (if decide (old = []) then None else Some (BytesIO.store old)) →
  Struct.unpack_IH (take 6 (old ++ chunk)) = Some (l, ty) →
  l > Z.of_nat (List.length (old ++ chunk)) →
  parse nl (S fuel) m (BytesIO.store chunk) (Some s)
  = Some (Return [],
          {| msg_map := msg_map m;
             defragmentation :=
               <[s := BytesIO.store (old ++ chunk)]> (defragmentation m) |}).
Proof.
  intros Hpend Hpeek Hlong.
  assert (Hpos : (0 < List.length (old ++ chunk))%nat).
  { unfold Struct.unpack_IH in Hpeek. case_decide; [|done].
    destruct (old ++ chunk); [done|cbn; lia]. }
  destruct (decide (old = [])) as [->|Hold].
  - rewrite parse_fresh by (cbn; by rewrite Hpend).
    rewrite (parse_loop_defer nl _ _ _ _ _ _ 0 _ _ l ty); try done.
    all: cbn in Hpos, Hlong; lia.
  - unfold parse. cbn [mbind option_bind]. rewrite Hpend. cbn [fmap option_fmap option_map].
    rewrite !store_eq. unfold BytesIO.read_all, BytesIO.write, BytesIO.seek,
      BytesIO.set_length.
    cbn [BytesIO.getvalue BytesIO.tell BytesIO.length fst snd].
    rewrite !Nat2Z.id. change (Z.to_nat 0) with 0%nat.
    rewrite drop_0. rewrite take_ge by lia. rewrite Nat.sub_diag.
    cbn [replicate app]. rewrite drop_ge by lia. rewrite app_nil_r.
    rewrite <- Nat2Z.inj_add, <- length_app.
    rewrite (parse_loop_defer nl _ _ _ _ _ _ 0 _ _ l ty); try done.
    + change (Z.to_nat 0) with 0%nat.
      by rewrite insert_delete_eq, drop_0, store_eq.
    + lia.
    + lia.
Qed.

End ParseDefects.

(** The scan of [two_messages] never gets past a first message whose
    class rejects the header: each turn appends one more empty message
    and starts again at offset 0. *)
Lemma rejected_header_stalls (fuel : nat) (result : list nlmsg) :
  parse_loop pyroute2_netlink fuel {[16 := rejecting_class]} None
             (BytesIO.mk two_messages 0 40) 0 result ∅
  = None.
Proof.
  revert result. induction fuel as [|fuel IH]; intros result; [done|].
  assert (Hpeek : peek (BytesIO.mk two_messages 0 40) = Some (20, 16))
    by (vm_compute; reflexivity).
  assert (Hcls : default (nlmsg_class pyroute2_netlink)
                   (({[16 := rejecting_class]} : gmap Z msg_class) !! 16)
                   two_messages 0
                 = HeaderDecodeFailed "unsupported header" 0)
    by (vm_compute; reflexivity).
  assert (Hty : 16 ≠ NLMSG_ERROR pyroute2_netlink)
    by (intros H; discriminate H).
  destruct (header_failure_advance pyroute2_netlink fuel
              {[16 := rejecting_class]} None two_messages 0 40 0 result ∅
              20 16 "unsupported header" 0 ltac:(lia) Hpeek eq_refl Hty Hcls)
    as (msg & _ & Heq).
  rewrite Heq. apply IH.
Qed.

(** C5 at two inputs where a header decode error does stop the scan.
    First, a message of type 16 whose registered class rejects its
    header, followed by a well-formed message of type 17: [parse] never
    returns, whatever the fuel, so the second message is never reached.
    Second, a well-formed message followed by the first ten bytes of
    another, no connection given: the generic class reports the cut
    header, and the next turn of the loop raises [struct.error], which
    loses the first message as well. *)
Theorem header_decode_error_stops_scan :
  (∀ fuel, parse pyroute2_netlink fuel
             (marshal_with {[16 := rejecting_class]})
             (BytesIO.store two_messages) None = None) ∧
  (∀ fuel, parse pyroute2_netlink (3 + fuel) Marshal_init
             (BytesIO.store (take 30 two_messages)) None
           = Some (Raise struct_error, Marshal_init)).
Proof.
  split; intros fuel.
  - rewrite parse_fresh by done.
    change (Z.of_nat (List.length two_messages)) with 40.
    change (msg_map (marshal_with {[16 := rejecting_class]}))
      with ({[16 := rejecting_class]} : gmap Z msg_class).
    change (defragmentation (marshal_with {[16 := rejecting_class]}))
      with (∅ : gmap nat BytesIO.t).
    by rewrite rejected_header_stalls.
  - rewrite parse_fresh by done.
    change (3 + fuel)%nat with (S (S (S fuel))).
    change (Z.of_nat (List.length (take 30 two_messages))) with 30.
    change (msg_map Marshal_init) with (∅ : gmap Z msg_class).
    change (defragmentation Marshal_init) with (∅ : gmap nat BytesIO.t).
    set (buf := take 30 two_messages).
    set (first := attach_event pyroute2_netlink
                    (set_error None (decoded (nlmsg_decode buf 0)))).
    assert (Hpeek0 : peek (BytesIO.mk buf 0 30) = Some (20, 16))
      by (vm_compute; reflexivity).
    assert (Hdec0 : decode_at pyroute2_netlink ∅ (BytesIO.mk buf 0 30) 0 16
                    = Return (first, 20))
      by (vm_compute; reflexivity).
    rewrite (parse_loop_step pyroute2_netlink (S (S fuel)) ∅ None buf 0 30 0
               [] ∅ 20 16 first 20 ltac:(lia) Hpeek0 eq_refl Hdec0).
    change (0 + msg_length first) with 20.
    assert (Hpeek1 : peek (BytesIO.mk buf 20 30) = Some (20, 17))
      by (vm_compute; reflexivity).
    assert (Hcls : default (nlmsg_class pyroute2_netlink)
                     ((∅ : gmap Z msg_class) !! 17) buf 20
                   = HeaderDecodeFailed "short header" 30)
      by (vm_compute; reflexivity).
    assert (Hty : 17 ≠ NLMSG_ERROR pyroute2_netlink)
      by (intros H; discriminate H).
    destruct (header_failure_advance pyroute2_netlink (S fuel) ∅ None buf
                20 30 20 ([] ++ [first]) ∅ 20 17 "short header" 30
                ltac:(lia) Hpeek1 eq_refl Hty Hcls)
      as (msg & _ & Heq).
    rewrite Heq.
    rewrite parse_loop_short; [done| |].
    + change (msg_length (nlmsg_new pyroute2_netlink)) with 0. lia.
    + vm_compute. lia.
Qed.

(** C1 at a split that leaves three bytes in the first chunk.  With a
    class registered for the types 16 and 17 that reads its whole
    message, the buffer parses whole into the two messages.  The two
    calls, whatever the policy map and the message classes, return no
    message: the first raises [struct.error] at the header read and
    keeps nothing, and the second takes the remaining 37 bytes for the
    start of a message and puts them aside. *)
Theorem split_with_short_first_chunk
    (nl : netlink) (mp : gmap Z msg_class) (fuel : nat) :
  summaries (parse pyroute2_netlink 3
               (marshal_with {[16 := body_class; 17 := body_class]})
               (BytesIO.store two_messages) (Some 7%nat))
  = Some (Return [(Some 16, 20, None, None); (Some 17, 20, None, None)]) ∧
  take 3 two_messages ++ drop 3 two_messages = two_messages ∧
  feed nl (S fuel) (Some 7%nat)
       [take 3 two_messages; drop 3 two_messages] (marshal_with mp)
  = ([Some (Raise struct_error); Some (Return [])],
     {| msg_map := mp;
        defragmentation :=
          {[7%nat := BytesIO.store (drop 3 two_messages)]} |}).
Proof.
  split; [vm_compute; reflexivity|].
  split; [apply take_drop|].
  assert (Hshort : (0 < List.length (take 3 two_messages) < 6)%nat)
    by (vm_compute; lia).
  assert (Hpeek : Struct.unpack_IH (take 6 ([] ++ drop 3 two_messages))
                  = Some (4096, 256))
    by (vm_compute; reflexivity).
  assert (Hlong : 4096 > Z.of_nat (List.length ([] ++ drop 3 two_messages)))
    by (vm_compute; reflexivity).
  cbn [feed].
  rewrite (short_chunk_raises nl fuel (marshal_with mp) (Some 7%nat)
             (take 3 two_messages) eq_refl Hshort).
  rewrite (partial_chunk_kept nl fuel (marshal_with mp) 7 []
             (drop 3 two_messages) 4096 256 eq_refl Hpeek Hlong).
  cbn [summaries app msg_map defragmentation marshal_with fmap list_fmap].
  by rewrite insert_empty.
Qed.

(** C2 at three partial chunks of four bytes each, the first twelve
    bytes of a message.  Each call raises [struct.error]; after the
    three calls no buffer exists for the connection: the twelve bytes
    are lost. *)
Theorem short_chunks_are_lost :
  let chunks := [take 4 two_messages; take 4 (drop 4 two_messages);
                 take 4 (drop 8 two_messages)] in
  concat chunks = take 12 two_messages ∧
  (feed pyroute2_netlink 3 (Some 7%nat) chunks Marshal_init).1
  = [Some (Raise struct_error); Some (Raise struct_error);
     Some (Raise struct_error)] ∧
  pending (feed pyroute2_netlink 3 (Some 7%nat) chunks Marshal_init).2 7%nat
  = None.
Proof. split_and!; vm_compute; reflexivity. Qed.

(** ** More on the policy map *)

Section PolicyMore.

Implicit Types (mp sub : gmap Z msg_class) (keys : list Z)
  (s : NetlinkSocket).

Lemma with_msg_map_id s : with_msg_map (msg_map (marshal s)) s = s.
Proof. by destruct s as [? ? ? ? ? [] ?]. Qed.

(** A successful collection means every key was found. *)
Lemma collect_keys_Return_inv keys mp ret sub :
  collect_keys keys mp ret = Return sub →
  ∀ x, x ∈ keys → is_Some (mp !! x).
Proof.
  revert ret. induction keys as [|key rest IH]; intros ret Hcol x Hx;
    cbn [collect_keys] in Hcol.
  - by apply elem_of_nil in Hx.
  - destruct (mp !! key) as [c|] eqn:Hkey; [|discriminate].
    apply elem_of_cons in Hx as [->|Hx]; [by eexists|].
    by eapply IH.
Qed.

End PolicyMore.

(** [register_policy] extends the policy map and never replaces it: the
    keys of the new policy get the new classes, every other key keeps
    the class it had, and the map returned is the one the socket keeps.
    An int without a class, or a list, fails the assertion and leaves
    the socket as it was. *)
Theorem register_policy_extends
    (s : NetlinkSocket) (d : gmap Z msg_class) (order : list Z)
    (cls : option msg_class) (k : Z) (c : msg_class) (ks : list Z) :
  (∃ mp, register_policy (PolicyDict d order) cls s
         = (Return mp, with_msg_map mp s) ∧
         ∀ x, mp !! x = match d !! x with
                        | Some c' => Some c'
                        | None => msg_map (marshal s) !! x
                        end) ∧
  register_policy (PolicyInt k) (Some c) s
  = (Return (<[k := c]> (msg_map (marshal s))),
     with_msg_map (<[k := c]> (msg_map (marshal s))) s) ∧
  register_policy (PolicyInt k) None s = (Raise AssertionError, s) ∧
  register_policy (PolicySeq ks) cls s = (Raise AssertionError, s).
Proof.
  split_and!.
  - eexists. split; [by destruct cls|]. intros x.
    rewrite lookup_union. destruct (d !! x), (msg_map (marshal s) !! x); done.
  - unfold register_policy. by rewrite insert_union_singleton_l.
  - done.
  - by destruct cls.
Qed.

(** The last registration of a key wins. *)
Theorem register_policy_last_wins
    (s : NetlinkSocket) (k : Z) (c1 c2 : msg_class) :
  let s1 := (register_policy (PolicyInt k) (Some c1) s).2 in
  let s2 := (register_policy (PolicyInt k) (Some c2) s1).2 in
  msg_map (marshal s2) = <[k := c2]> (msg_map (marshal s)) ∧
  get_policy_map (Some (PolicyInt k)) s2 = Return {[k := c2]}.
Proof.
  cbn. rewrite <- !insert_union_singleton_l, insert_insert_eq.
  split; [done|]. by rewrite lookup_insert_eq.
Qed.

(** Registering a policy whose keys are all new and unregistering it
    again, by the same dict, gives back the policy map as it was,
    whatever the order of the keys in the dict. *)
Theorem register_unregister_round_trip
    (s : NetlinkSocket) (d : gmap Z msg_class) (order : list Z) :
  dict_ok d order →
  (∀ x, is_Some (d !! x) → msg_map (marshal s) !! x = None) →
  let s1 := (register_policy (PolicyDict d order) None s).2 in
  unregister_policy (PolicyDict d order) s1
  = (Return (msg_map (marshal s)), s).
Proof.
  intros [Hnd Hdom] Hnew s1.
  assert (Hmap : msg_map (marshal s1) = d ∪ msg_map (marshal s)) by done.
  destruct (del_keys_return order (msg_map (marshal s1)))
    as (mp' & Hdel & Hmp'); [done| |].
  { intros x Hx. apply Hdom in Hx as [c' Hc'].
    rewrite Hmap. exists c'. by apply lookup_union_Some_l. }
  assert (mp' = msg_map (marshal s)) as ->.
  { apply map_eq. intros x. rewrite Hmp', Hmap. case_decide as Hx.
    - apply Hdom in Hx. symmetry. by apply Hnew.
    - rewrite lookup_union_r; [done|].
      destruct (d !! x) eqn:Hd; [|done].
      destruct Hx. apply Hdom. by eexists. }
  unfold unregister_policy. cbn [policy_keys]. rewrite Hdel.
  f_equal. unfold s1. cbn. by destruct s as [? ? ? ? ? [] ?].
Qed.

Lemma register_unregister_round_trip_witness :
  let s := with_msg_map {[16 := nlmsg_decode]}
                        (NetlinkSocket_init 4242 None None) in
  unregister_policy
    (PolicyDict {[17 := nlmsg_decode; 18 := nlmsg_decode]} [18; 17])
    (register_policy
       (PolicyDict {[17 := nlmsg_decode; 18 := nlmsg_decode]} [18; 17])
       None s).2
  = (Return (msg_map (marshal s)), s).
Proof.
  intros s.
  apply (register_unregister_round_trip s
           {[17 := nlmsg_decode; 18 := nlmsg_decode]} [18; 17]).
  - split; [repeat constructor; set_solver|].
    intros k. rewrite !elem_of_cons, elem_of_nil. split.
    + intros [->|[->|[]]]; by eexists.
    + intros [c Hc].
      apply lookup_insert_Some in Hc as [[<- _]|[_ Hc]]; [tauto|].
      apply lookup_singleton_Some in Hc as [<- _]. tauto.
  - intros x [c Hc]. subst s. cbn.
    apply lookup_insert_Some in Hc as [[<- _]|[_ Hc]]; [done|].
    apply lookup_singleton_Some in Hc as [<- _]. done.
Defined.

(** What [get_policy_map] returns for a list of keys can be handed to
    [unregister_policy], which then removes exactly those keys; this
    works even when the list names a key twice, since the dict holds it
    once, and whatever the order of the keys in the dict. *)
Theorem get_then_unregister
    (s : NetlinkSocket) (keys : list Z) (sub : gmap Z msg_class)
    (order : list Z) :
  get_policy_map (Some (PolicySeq keys)) s = Return sub →
  dict_ok sub order →
  ∃ mp', unregister_policy (PolicyDict sub order) s
         = (Return mp', with_msg_map mp' s) ∧
         ∀ x, mp' !! x = if decide (x ∈ keys) then None
                         else msg_map (marshal s) !! x.
Proof.
  intros Hget [Hnd Hord]. cbn in Hget.
  pose proof (collect_keys_Return_inv _ _ _ _ Hget) as Hall.
  destruct (collect_keys_return keys (msg_map (marshal s)) ∅ Hall)
    as (sub' & Hcol & Hsub).
  rewrite Hget in Hcol. injection Hcol as <-.
  assert (Hdom : ∀ x, x ∈ order ↔ x ∈ keys).
  { intros x. rewrite Hord, Hsub. case_decide as Hx.
    - split; [done|]. intros _. by apply Hall.
    - rewrite lookup_empty. split; [by intros [? ?]|done]. }
  destruct (del_keys_return order (msg_map (marshal s)))
    as (mp' & Hdel & Hmp'); [done| |].
  { intros x Hx. apply Hall. by apply Hdom. }
  exists mp'. unfold unregister_policy. cbn [policy_keys]. rewrite Hdel.
  split; [done|]. intros x. rewrite Hmp'.
  destruct (decide (x ∈ keys)) as [Hx|Hx].
  - rewrite decide_True; [done|]. by apply Hdom.
  - rewrite decide_False; [done|]. by rewrite Hdom.
Qed.

Lemma get_then_unregister_witness :
  let s := with_msg_map {[16 := nlmsg_decode; 17 := nlmsg_decode]}
                        (NetlinkSocket_init 4242 None None) in
  ∃ mp', unregister_policy (PolicyDict {[16 := nlmsg_decode]} [16]) s
         = (Return mp', with_msg_map mp' s) ∧
         ∀ x, mp' !! x = if decide (x ∈ [16; 16]) then None
                         else msg_map (marshal s) !! x.
Proof.
  intros s.
  apply (get_then_unregister s [16; 16] {[16 := nlmsg_decode]} [16]).
  - subst s. cbn. rewrite !lookup_insert_eq. cbn.
    by rewrite insert_insert_eq.
  - split; [repeat constructor; set_solver|].
    intros k. rewrite list_elem_of_singleton. split.
    + intros ->. by eexists.
    + by intros [c [<- _]%lookup_singleton_Some].
Defined.

(** ** More on bind and close *)

Section BindMore.

Implicit Types (st : bind_state) (os : os_bind) (s : NetlinkSocket)
  (pool : AddrPool.t).

(** One turn of the scan, once the allocator has handed out [a]. *)
Lemma bind_scan_turn os n i st (a : Z) pool' :
  AddrPool.alloc (bs_pool st) = (Return a, pool') →
  bind_scan os (S n) i st
  = let st' := {| bs_sock := with_port a (bs_sock st); bs_pool := pool';
                  bs_tried := bs_tried st ++ [addr_of (bs_sock st) a] |} in
    match os i (addr_of (bs_sock st) a) (groups (bs_sock st)) with
    | None => (Return tt, st')
    | Some errno =>
        if decide (errno = 98) then bind_scan os n (S i) st'
        else (Raise (socket_error errno), st')
    end.
Proof. intros Halloc. cbn [bind_scan]. rewrite Halloc. reflexivity. Qed.

Lemma bind_attempts_S : ∃ n, bind_attempts = S n.
Proof. by exists 1023%nat. Qed.

Lemma shiftl_22_inj (a b : Z) : Z.shiftl a 22 = Z.shiftl b 22 → a = b.
Proof. rewrite !Z.shiftl_mul_pow2 by lia. lia. Qed.

(** What a successful non-fixed [bind] leaves. *)
Lemma bind_success getpid os g s pool st :
  fixed s = false →
  bind getpid os g None s pool = (Return tt, st) →
  ∃ a, bs_sock st = with_port a (with_groups g s) ∧
       a ∈ AddrPool.candidates pool ∧
       (a ∉ AddrPool.allocated pool) ∧
       a ∈ AddrPool.allocated (bs_pool st) ∧
       last (bs_tried st) = Some (addr_of s a).
Proof.
  intros Hf Hbind. rewrite bind_unfixed in Hbind by done.
  apply bind_scan_spec in Hbind
    as (ports & _ & Hin & _ & Hal & Htr & Hs & _ & Hend).
  cbn [bs_sock bs_pool bs_tried] in *.
  destruct Hend as (pre & a & -> & _).
  rewrite last_snoc in Hs. exists a.
  destruct (Hin a) as [Hc Hfree]; [set_solver|].
  split_and!; try done.
  - rewrite Hal. set_solver.
  - rewrite Htr, app_nil_l, fmap_app. cbn. by rewrite last_snoc.
Qed.

End BindMore.

(** The first attempt of a non-fixed [bind] decides when the operating
    system accepts the address or refuses it with an errno other than
    98: [bind] returns, or raises that error at once without trying
    another port.  In both cases the port just allocated stays
    allocated and is the one the socket records. *)
Theorem bind_first_attempt
    (getpid : Z) (os : os_bind) (g : Z) (s : NetlinkSocket)
    (pool pool' : AddrPool.t) (a : Z) :
  fixed s = false →
  AddrPool.alloc pool = (Return a, pool') →
  let st := {| bs_sock := with_port a (with_groups g s); bs_pool := pool';
               bs_tried := [addr_of s a] |} in
  (os O (addr_of s a) g = None →
   bind getpid os g None s pool = (Return tt, st)) ∧
  (∀ e, os O (addr_of s a) g = Some e → e ≠ 98 →
        bind getpid os g None s pool = (Raise (socket_error e), st)).
Proof.
  intros Hf Halloc st. rewrite bind_unfixed by done.
  destruct bind_attempts_S as [n ->].
  rewrite (bind_scan_turn os n 0 _ a pool') by done.
  cbn [bs_sock bs_tried groups with_groups app].
  change (addr_of (with_groups g s) a) with (addr_of s a).
  split.
  - by intros ->.
  - intros e -> He. by rewrite decide_False.
Qed.

Lemma bind_first_attempt_witness :
  let s := NetlinkSocket_init 4242 None None in
  ∃ st, bind 4242 (λ _ _ _, Some 13) 0 None s sockets
        = (Raise (socket_error 13), st) ∧
        bs_tried st = [addr_of s 1023] ∧ port (bs_sock st) = Some 1023.
Proof.
  intros s. eexists. split.
  { refine (proj2 (bind_first_attempt 4242 (λ _ _ _, Some 13) 0 s sockets _
                     1023 eq_refl _) 13 eq_refl _).
    - vm_compute. reflexivity.
    - intros H; discriminate H. }
  split; reflexivity.
Defined.

(** A [bind] with a fixed address (a port or a pid given to the
    constructor, or a pid given to [bind]) makes one attempt, at the
    address [pid + (port << 22)], leaves the allocator alone, and lets
    any error of the operating system through, "address in use"
    included.  A pid given to [bind] sets the port to 0 and the pid to
    that pid, or to [os.getpid()] when it is 0; otherwise pid and port
    are those of the socket. *)
Theorem bind_fixed_once
    (getpid : Z) (os : os_bind) (g : Z) (p0 : option Z) (s : NetlinkSocket)
    (pool : AddrPool.t) (r : outcome unit) (st : bind_state) :
  is_Some p0 ∨ fixed s = true →
  bind getpid os g p0 s pool = (r, st) →
  let pid' := match p0 with
              | Some p => if decide (p = 0) then getpid else p
              | None => pid s
              end in
  let port' := match p0 with Some _ => Some 0 | None => port s end in
  bs_pool st = pool ∧
  match port' with
  | Some a =>
      let addr := pid' + Z.shiftl a 22 in
      bs_tried st = [addr] ∧
      epid (bs_sock st) = Some addr ∧
      port (bs_sock st) = Some a ∧
      groups (bs_sock st) = g ∧
      r = match os O addr g with
          | None => Return tt
          | Some errno => Raise (socket_error errno)
          end
  | None => bs_tried st = [] ∧ r = Raise TypeError
  end.
Proof.
  intros Hfix Hbind pid' port'. rewrite bind_fixed in Hbind by done.
  cbn zeta in Hbind. unfold addr_of in Hbind.
  destruct p0 as [p|]; cbn [port pid with_groups] in Hbind;
    subst pid' port'; cbn beta iota zeta.
  - destruct (os _ _ _) as [errno|]; by injection Hbind as <- <-.
  - destruct (port s) as [a|]; cbn beta iota zeta.
    + destruct (os _ _ _) as [errno|]; by injection Hbind as <- <-.
    + by injection Hbind as <- <-.
Qed.

(** A socket constructed with port 5, the address being taken. *)
Lemma bind_fixed_once_witness :
  let s := NetlinkSocket_init 4242 (Some 5) None in
  let '(r, st) := bind 4242 os_refuses 0 None s sockets in
  bs_pool st = sockets ∧
  bs_tried st = [4242 + Z.shiftl 5 22] ∧
  epid (bs_sock st) = Some (4242 + Z.shiftl 5 22) ∧
  port (bs_sock st) = Some 5 ∧
  groups (bs_sock st) = 0 ∧
  r = Raise (socket_error 98).
Proof.
  intros s.
  destruct (bind 4242 os_refuses 0 None s sockets) as [r st] eqn:Hbind.
  exact (bind_fixed_once 4242 os_refuses 0 None s sockets r st
           (or_intror eq_refl) Hbind).
Defined.

(** Two sockets of one process bound one after the other without a
    fixed address never get the same address: the second is given a
    port the first does not hold. *)
Theorem two_binds_distinct_addresses
    (getpid : Z) (os1 os2 : os_bind) (g1 g2 : Z) (s1 s2 : NetlinkSocket)
    (pool : AddrPool.t) (st1 st2 : bind_state) :
  fixed s1 = false → fixed s2 = false → pid s1 = pid s2 →
  bind getpid os1 g1 None s1 pool = (Return tt, st1) →
  bind getpid os2 g2 None s2 (bs_pool st1) = (Return tt, st2) →
  is_Some (epid (bs_sock st1)) ∧ is_Some (epid (bs_sock st2)) ∧
  epid (bs_sock st1) ≠ epid (bs_sock st2).
Proof.
  intros Hf1 Hf2 Hpid Hb1 Hb2.
  apply bind_success in Hb1 as (a1 & -> & _ & _ & Ha1 & _); [|done].
  apply bind_success in Hb2 as (a2 & -> & _ & Ha2 & _ & _); [|done].
  cbn [epid with_port with_groups pid]. split_and!; [by eexists..|].
  intros [= Heq]. rewrite Hpid in Heq.
  assert (a1 = a2) as -> by (apply shiftl_22_inj; lia). done.
Qed.

Lemma two_binds_distinct_addresses_witness :
  let s := NetlinkSocket_init 4242 None None in
  ∃ st1 st2,
    bind 4242 os_accepts 0 None s sockets = (Return tt, st1) ∧
    bind 4242 os_accepts 0 None s (bs_pool st1) = (Return tt, st2) ∧
    epid (bs_sock st1) ≠ epid (bs_sock st2).
Proof.
  intros s. eexists _, _. split; [vm_compute; reflexivity|].
  split; [vm_compute; reflexivity|].
  refine (proj2 (proj2 (two_binds_distinct_addresses 4242 os_accepts
                          os_accepts 0 0 s s sockets _ _ eq_refl eq_refl
                          eq_refl _ _)));
    vm_compute; reflexivity.
Defined.

(** The address of a socket constructed without pid and bound to a pool
    port takes the port and the process identifier apart again: the
    port is the address shifted right by 22 bits, the masked process
    identifier its low 22 bits. *)
Theorem bound_address_decomposes
    (getpid : Z) (os : os_bind) (g : Z) (pool : AddrPool.t)
    (st : bind_state) :
  0 ≤ AddrPool.minaddr pool →
  bind getpid os g None (NetlinkSocket_init getpid None None) pool
  = (Return tt, st) →
  ∃ e a, epid (bs_sock st) = Some e ∧ port (bs_sock st) = Some a ∧
         Z.shiftr e 22 = a ∧
         Z.land e 0x3fffff = Z.land getpid 0x3fffff.
Proof.
  intros Hmin Hbind.
  apply bind_success in Hbind as (a & -> & Hc & _ & _ & _); [|done].
  apply elem_of_candidates in Hc.
  cbn [epid port with_port with_groups pid NetlinkSocket_init].
  eexists _, a. split; [done|]. split; [done|].
  change 0x3fffff with (Z.ones 22). rewrite !Z.land_ones by lia.
  rewrite Z.shiftr_div_pow2, Z.shiftl_mul_pow2 by lia.
  pose proof (Z.mod_pos_bound getpid (2 ^ 22) ltac:(lia)) as Hb.
  split.
  - rewrite Z.div_add by lia. rewrite Z.div_small by lia. lia.
  - rewrite Z.mod_add by lia. by rewrite Z.mod_mod by lia.
Qed.

Lemma bound_address_decomposes_witness :
  ∃ st e a,
    bind 4242 os_accepts 0 None (NetlinkSocket_init 4242 None None) sockets
    = (Return tt, st) ∧
    epid (bs_sock st) = Some e ∧ port (bs_sock st) = Some a ∧
    Z.shiftr e 22 = a ∧ Z.land e 0x3fffff = Z.land 4242 0x3fffff.
Proof.
  eexists.
  assert (Hbind : bind 4242 os_accepts 0 None
                    (NetlinkSocket_init 4242 None None) sockets
                  = (Return tt,
                     (bind 4242 os_accepts 0 None
                        (NetlinkSocket_init 4242 None None) sockets).2))
    by (vm_compute; reflexivity).
  destruct (bound_address_decomposes 4242 os_accepts 0 sockets _
              ltac:(done) Hbind) as (e & a & H).
  exists e, a. split; [exact Hbind|exact H].
Defined.

(** [bind] followed by [close], on a socket that had no address: the
    port the socket ends up with is given back, the ports of the
    attempts before it are not.  Whatever the outcome of [bind], the
    pool then holds what it held before and the ports of all attempts
    but the last. *)
Theorem bind_then_close
    (getpid : Z) (os : os_bind) (g : Z) (s : NetlinkSocket)
    (pool : AddrPool.t) (r : outcome unit) (st : bind_state) :
  fixed s = false → epid s = None →
  bind getpid os g None s pool = (r, st) →
  ∃ ports s' pool',
    bs_tried st = addr_of s <$> ports ∧
    close (bs_sock st) (bs_pool st) = (Return tt, s', pool') ∧
    AddrPool.allocated pool'
    = list_to_set (removelast ports) ∪ AddrPool.allocated pool.
Proof.
  intros Hf He Hbind. rewrite bind_unfixed in Hbind by done.
  apply bind_scan_spec in Hbind
    as (ports & Hnd & Hin & _ & Hal & Htr & Hs & _ & _).
  cbn [bs_sock bs_pool bs_tried] in *.
  exists ports. unfold close. rewrite Hs.
  destruct (last ports) as [a|] eqn:Hlast.
  - apply last_Some in Hlast as [pre ->].
    cbn [epid port fixed with_port with_groups]. rewrite Hf.
    unfold AddrPool.free. rewrite decide_True by (rewrite Hal; set_solver).
    eexists _, _. split; [done|]. split; [reflexivity|].
    cbn [AddrPool.allocated]. rewrite Hal, removelast_last.
    apply NoDup_app in Hnd as (_ & Hfresh & _).
    destruct (Hin a) as [_ Hna]; [set_solver|].
    apply set_eq. intros x. set_solver.
  - apply last_None in Hlast as ->.
    cbn [epid with_groups]. rewrite He.
    eexists _, _. split; [done|]. split; [reflexivity|].
    rewrite Hal. cbn. set_solver.
Qed.

Lemma bind_then_close_witness :
  let s := NetlinkSocket_init 4242 None None in
  let st := (bind 4242 os_refuses_first 0 None s sockets).2 in
  ∃ ports s' pool',
    bs_tried st = addr_of s <$> ports ∧
    close (bs_sock st) (bs_pool st) = (Return tt, s', pool') ∧
    AddrPool.allocated pool'
    = list_to_set (removelast ports) ∪ AddrPool.allocated sockets.
Proof.
  intros s st.
  apply (bind_then_close 4242 os_refuses_first 0 s sockets
           (bind 4242 os_refuses_first 0 None s sockets).1 st
           eq_refl eq_refl).
  apply surjective_pairing.
Defined.

(** The three ways of constructing a socket fix the address [bind]
    asks for.  With a pid given, the address is that pid, or the
    unmasked [os.getpid()] when the pid is 0; with a port given and no
    pid, it is the process identifier masked to 22 bits plus the port
    shifted by 22 bits.  One address is asked for and the pool is left
    alone. *)
Theorem constructor_fixes_address
    (getpid : Z) (os : os_bind) (g : Z) (port0 : option Z) (p a : Z)
    (pool : AddrPool.t) :
  (let st := (bind getpid os g None
                (NetlinkSocket_init getpid port0 (Some p)) pool).2 in
   bs_tried st = [if decide (p = 0) then getpid else p] ∧
   bs_pool st = pool) ∧
  (let st := (bind getpid os g None
                (NetlinkSocket_init getpid (Some a) None) pool).2 in
   bs_tried st = [Z.land getpid 0x3fffff + Z.shiftl a 22] ∧
   bs_pool st = pool).
Proof.
  split.
  - rewrite bind_fixed by (by right). cbn zeta.
    cbn [port NetlinkSocket_init with_groups].
    unfold addr_of. cbn [pid with_groups NetlinkSocket_init].
    change (Z.shiftl 0 22) with 0. rewrite Z.add_0_r.
    by destruct (os _ _ _).
  - rewrite bind_fixed by (by right). cbn zeta.
    cbn [port NetlinkSocket_init with_groups].
    unfold addr_of. cbn [pid with_groups NetlinkSocket_init].
    by destruct (os _ _ _).
Qed.

(** ** More on Marshal.parse: the defragmentation buffers *)

Section ParseBuffers.

Variable nl : netlink.

Implicit Types (mp : gmap Z msg_class) (data : BytesIO.t) (m : Marshal)
  (D : gmap nat BytesIO.t).

(** The loop touches the buffers in one way only: when it puts the rest
    of the data aside for the connection it was given, and then it
    returns normally. *)
Lemma parse_loop_defrag fuel mp sock data (offset : Z) result D r D' :
  parse_loop nl fuel mp sock data offset result D = Some (r, D') →
  D' = D ∨
  ∃ s n msgs, sock = Some s ∧ r = Return msgs ∧
              D' = <[s := BytesIO.store (drop n (BytesIO.getvalue data))]> D.
Proof.
  revert data offset result.
  induction fuel as [|fuel IH]; intros data offset result Hloop;
    cbn [parse_loop] in Hloop; [discriminate|].
  destruct (decide (offset < BytesIO.length data)); [|left; congruence].
  destruct (peek data) as [[len ty]|]; [|left; congruence].
  destruct (decide (offset < 0)); [left; congruence|].
  cbn zeta in Hloop.
  destruct (deferred sock len offset (BytesIO.seek offset data))
    as [s|] eqn:Hdef.
  - right. unfold deferred in Hdef. destruct sock as [s0|]; [|discriminate].
    case_decide; [|discriminate]. injection Hdef as ->.
    injection Hloop as <- <-. by eexists s, _, result.
  - destruct (decode_at nl mp (BytesIO.seek offset data) offset ty)
      as [[msg p]|e]; [|left; congruence].
    by apply IH in Hloop.
Qed.

(** [parse] when bytes are pending for the connection: they are put in
    front of the new data, and the buffer is given up before the scan. *)
Lemma parse_pending fuel m (s : nat) (old chunk : list byte) :
  defragmentation m !! s = Some (BytesIO.store old) →
  parse nl fuel m (BytesIO.store chunk) (Some s)
  = match parse_loop nl fuel (msg_map m) (Some s)
            (BytesIO.mk (old ++ chunk) 0
                        (Z.of_nat (List.length (old ++ chunk)))) 0 []
            (delete s (defragmentation m)) with
    | None => None
    | Some (r, defrag') =>
        Some (r, {| msg_map := msg_map m; defragmentation := defrag' |})
    end.
Proof.
  intros Hpend. unfold parse. cbn [mbind option_bind]. rewrite Hpend.
  cbn [fmap option_fmap option_map].
  rewrite !store_eq. unfold BytesIO.read_all, BytesIO.write, BytesIO.seek,
    BytesIO.set_length.
  cbn [BytesIO.getvalue BytesIO.tell BytesIO.length fst snd].
  rewrite !Nat2Z.id. change (Z.to_nat 0) with 0%nat.
  rewrite drop_0. rewrite take_ge by lia. rewrite Nat.sub_diag.
  cbn [replicate app]. rewrite drop_ge by lia. rewrite app_nil_r.
  by rewrite <- Nat2Z.inj_add, <- length_app.
Qed.

(** What a call of [parse] does to the buffers, in terms of the buffers
    without the one of the connection. *)
Lemma parse_defrag fuel m data (s : nat) r m' :
  parse nl fuel m data (Some s) = Some (r, m') →
  msg_map m' = msg_map m ∧
  (defragmentation m' = delete s (defragmentation m) ∨
   ∃ rest msgs, r = Return msgs ∧
     defragmentation m'
     = <[s := BytesIO.store rest]> (delete s (defragmentation m))).
Proof.
  unfold parse. cbn [mbind option_bind].
  destruct (defragmentation m !! s) as [save|] eqn:Hpend;
    cbn [fmap option_fmap option_map].
  - destruct (BytesIO.read_all _) as [bs ?].
    destruct (BytesIO.write bs save) as [? save'].
    destruct (parse_loop _ _ _ _ _ _ _ _) as [[r0 D']|] eqn:Hloop;
      [|discriminate].
    intros [= <- <-]. split; [done|]. cbn [defragmentation].
    apply parse_loop_defrag in Hloop as [->|(s0 & n & msgs & [= <-] & -> & ->)];
      [by left|right; by eexists _, _].
  - destruct (parse_loop _ _ _ _ _ _ _ _) as [[r0 D']|] eqn:Hloop;
      [|discriminate].
    intros [= <- <-]. split; [done|]. cbn [defragmentation].
    rewrite (delete_id (defragmentation m) s) by done.
    apply parse_loop_defrag in Hloop as [->|(s0 & n & msgs & [= <-] & -> & ->)];
      [by left|right; by eexists _, _].
Qed.

End ParseBuffers.

(** Without a connection [parse] changes nothing of the marshal: no
    buffer is made, kept or given up, whatever the data and whether the
    call returns or raises. *)
Theorem parse_without_socket_keeps_marshal
    (nl : netlink) (fuel : nat) (m : Marshal) (data : BytesIO.t)
    (r : outcome (list nlmsg)) (m' : Marshal) :
  parse nl fuel m data None = Some (r, m') → m' = m.
Proof.
  unfold parse. cbn [mbind option_bind].
  destruct (parse_loop _ _ _ _ _ _ _ _) as [[r0 D']|] eqn:Hloop;
    [|discriminate].
  intros [= <- <-].
  apply parse_loop_defrag in Hloop as [->|(s & n & msgs & [=] & _)].
  by destruct m.
Qed.

Lemma parse_without_socket_keeps_marshal_witness :
  let m := {| msg_map := ∅;
              defragmentation :=
                {[7%nat := BytesIO.store (take 8 two_messages)]} |} in
  ∃ r, parse pyroute2_netlink 3 m (BytesIO.store two_messages) None
       = Some (r, m).
Proof.
  intros m.
  destruct (parse pyroute2_netlink 3 m (BytesIO.store two_messages) None)
    as [[r m']|] eqn:Hparse.
  - exists r.
    by rewrite (parse_without_socket_keeps_marshal _ _ _ _ _ _ Hparse).
  - vm_compute in Hparse. discriminate Hparse.
Defined.

(** A call of [parse] for one connection leaves the buffers of all
    other connections as they are. *)
Theorem parse_leaves_other_connections
    (nl : netlink) (fuel : nat) (m : Marshal) (data : BytesIO.t)
    (s s' : nat) (r : outcome (list nlmsg)) (m' : Marshal) :
  parse nl fuel m data (Some s) = Some (r, m') →
  s' ≠ s →
  defragmentation m' !! s' = defragmentation m !! s'.
Proof.
  intros Hparse Hne.
  apply parse_defrag in Hparse as [_ [->|(rest & msgs & _ & ->)]].
  - by rewrite lookup_delete_ne.
  - by rewrite lookup_insert_ne, lookup_delete_ne.
Qed.

Lemma parse_leaves_other_connections_witness :
  let m := {| msg_map := ∅;
              defragmentation :=
                {[8%nat := BytesIO.store (take 8 two_messages)]} |} in
  ∃ r m',
    parse pyroute2_netlink 3 m (BytesIO.store (take 30 two_messages))
          (Some 7%nat) = Some (r, m') ∧
    defragmentation m' !! 8%nat = defragmentation m !! 8%nat.
Proof.
  intros m.
  destruct (parse pyroute2_netlink 3 m (BytesIO.store (take 30 two_messages))
                  (Some 7%nat)) as [[r m']|] eqn:Hparse.
  - exists r, m'. split; [done|].
    apply (parse_leaves_other_connections _ _ _ _ _ _ _ _ Hparse). lia.
  - vm_compute in Hparse. discriminate Hparse.
Defined.

(** When [parse] raises, nothing is pending for the connection
    afterwards: bytes that were pending before the call are given up
    together with the new data. *)
Theorem parse_error_discards_pending
    (nl : netlink) (fuel : nat) (m : Marshal) (data : BytesIO.t)
    (s : nat) (e : exception) (m' : Marshal) :
  parse nl fuel m data (Some s) = Some (Raise e, m') →
  defragmentation m' !! s = None.
Proof.
  intros Hparse.
  apply parse_defrag in Hparse as [_ [->|(rest & msgs & [=] & _)]].
  apply lookup_delete_eq.
Qed.

(** Eight bytes of a message are pending; the next chunk completes the
    message and brings three bytes of the next one: the call raises,
    and all 23 bytes are gone. *)
Lemma parse_error_discards_pending_witness :
  let m := {| msg_map := ∅;
              defragmentation :=
                {[7%nat := BytesIO.store (take 8 two_messages)]} |} in
  ∃ m',
    parse pyroute2_netlink 3 m
          (BytesIO.store (take 15 (drop 8 two_messages))) (Some 7%nat)
    = Some (Raise struct_error, m') ∧
    defragmentation m' !! 7%nat = None.
Proof.
  intros m. eexists.
  assert (Hparse :
    parse pyroute2_netlink 3 m
          (BytesIO.store (take 15 (drop 8 two_messages))) (Some 7%nat)
    = Some (Raise struct_error, {| msg_map := ∅; defragmentation := ∅ |}))
    by (vm_compute; reflexivity).
  split; [exact Hparse|].
  exact (parse_error_discards_pending _ _ _ _ _ _ _ Hparse).
Defined.

(** An empty buffer, nothing being pending for the connection: [parse]
    returns the empty list and changes nothing. *)
Theorem parse_empty_buffer
    (nl : netlink) (fuel : nat) (m : Marshal) (sock : option nat) :
  sock ≫= (λ s, defragmentation m !! s) = None →
  parse nl (S fuel) m (BytesIO.store []) sock = Some (Return [], m).
Proof.
  intros Hfresh. rewrite parse_fresh by done.
  rewrite parse_loop_end by (cbn; lia). by destruct m.
Qed.

Lemma parse_empty_buffer_witness :
  parse pyroute2_netlink 1 Marshal_init (BytesIO.store []) (Some 7%nat)
  = Some (Return [], Marshal_init).
Proof.
  exact (parse_empty_buffer pyroute2_netlink 0 Marshal_init (Some 7%nat)
           eq_refl).
Defined.

(** Further chunks of a message that stays incomplete, six bytes or
    more being pending already. *)
Lemma feed_partial (nl : netlink) (fuel : nat) (s : nat) (l ty : Z)
    (rest : list (list byte)) (old : list byte) (m : Marshal) :
  defragmentation m !! s = Some (BytesIO.store old) →
  Struct.unpack_IH (take 6 old) = Some (l, ty) →
  l > Z.of_nat (List.length (old ++ concat rest)) →
  feed nl (S fuel) (Some s) rest m
  = (replicate (List.length rest) (Some (Return [])),
     {| msg_map := msg_map m;
        defragmentation :=
          <[s := BytesIO.store (old ++ concat rest)]> (defragmentation m) |}).
Proof.
  revert old m. induction rest as [|chunk rest IH]; intros old m Hpend Hpeek Hlong.
  - cbn [feed concat List.length replicate]. rewrite app_nil_r.
    rewrite insert_id by done. by destruct m.
  - assert (Hsix : (6 ≤ List.length old)%nat).
    { unfold Struct.unpack_IH in Hpeek. case_decide as H6; [|done].
      rewrite length_take in H6. lia. }
    assert (Hold : old ≠ []) by (intros ->; cbn in Hsix; lia).
    cbn [concat] in Hlong. rewrite app_assoc in Hlong.
    pose proof (partial_chunk_kept nl fuel m s old chunk l ty) as Hkept.
    rewrite decide_False in Hkept by done.
    rewrite take_app_le in Hkept by lia.
    specialize (Hkept Hpend Hpeek).
    rewrite !length_app in Hlong. rewrite length_app in Hkept.
    specialize (Hkept ltac:(lia)).
    cbn [feed]. rewrite Hkept.
    rewrite (IH (old ++ chunk)); cbn [msg_map defragmentation].
    + cbn [summaries fmap list_fmap List.length replicate concat].
      by rewrite insert_insert_eq, app_assoc.
    + by rewrite lookup_insert_eq.
    + by rewrite take_app_le by lia.
    + rewrite !length_app. lia.
Qed.

(** Chunks of a message that stays incomplete, the first of them holding
    at least the six bytes of length and type: every call returns the
    empty list, and the one buffer of the connection ends up holding the
    chunks in order, byte for byte. *)
Theorem partial_chunks_accumulate
    (nl : netlink) (fuel : nat) (s : nat) (l ty : Z)
    (first : list byte) (rest : list (list byte)) (m : Marshal) :
  defragmentation m !! s = None →
  Struct.unpack_IH (take 6 first) = Some (l, ty) →
  l > Z.of_nat (List.length (concat (first :: rest))) →
  feed nl (S fuel) (Some s) (first :: rest) m
  = (replicate (S (List.length rest)) (Some (Return [])),
     {| msg_map := msg_map m;
        defragmentation :=
          <[s := BytesIO.store (concat (first :: rest))]>
            (defragmentation m) |}).
Proof.
  intros Hfresh Hpeek Hlong. cbn [concat] in *.
  pose proof (partial_chunk_kept nl fuel m s [] first l ty) as Hkept.
  rewrite decide_True in Hkept by done. cbn [app] in Hkept.
  rewrite length_app in Hlong.
  specialize (Hkept Hfresh Hpeek ltac:(lia)).
  cbn [feed]. rewrite Hkept.
  rewrite (feed_partial nl fuel s l ty rest first); cbn [msg_map defragmentation].
  - cbn [summaries fmap list_fmap replicate]. by rewrite insert_insert_eq.
  - by rewrite lookup_insert_eq.
  - done.
  - rewrite length_app. lia.
Qed.

(** Three chunks of six, one and four bytes of a 20-byte message. *)
Lemma partial_chunks_accumulate_witness :
  let rest := [take 1 (drop 6 two_messages); take 4 (drop 7 two_messages)] in
  feed pyroute2_netlink 1 (Some 7%nat) (take 6 two_messages :: rest)
       Marshal_init
  = (replicate (S (List.length rest)) (Some (Return [])),
     {| msg_map := msg_map Marshal_init;
        defragmentation :=
          <[7%nat := BytesIO.store (concat (take 6 two_messages :: rest))]>
            (defragmentation Marshal_init) |}).
Proof.
  intros rest.
  apply (partial_chunks_accumulate pyroute2_netlink 0 7 20 16
           (take 6 two_messages) rest Marshal_init).
  - reflexivity.
  - vm_compute. reflexivity.
  - vm_compute. reflexivity.
Defined.

(** A buffer split inside its first message, at least six bytes into it:
    the first call returns the empty list and keeps the chunk, and the
    second call is, outcome and marshal, the parse of the whole buffer.
    This holds for every buffer, policy map and decoder. *)
Theorem split_in_first_message
    (nl : netlink) (fuel0 fuel : nat) (m : Marshal) (s : nat)
    (buf : list byte) (k : nat) (l ty : Z) :
  defragmentation m !! s = None →
  (6 ≤ k ≤ List.length buf)%nat →
  Struct.unpack_IH (take 6 buf) = Some (l, ty) →
  l > Z.of_nat k →
  ∃ m1,
    parse nl (S fuel0) m (BytesIO.store (take k buf)) (Some s)
    = Some (Return [], m1) ∧
    pending m1 s = Some (take k buf) ∧
    parse nl fuel m1 (BytesIO.store (drop k buf)) (Some s)
    = parse nl fuel m (BytesIO.store buf) (Some s).
Proof.
  intros Hfresh [Hk6 Hk] Hpeek Hlong.
  pose proof (partial_chunk_kept nl fuel0 m s [] (take k buf) l ty) as Hkept.
  rewrite decide_True in Hkept by done. cbn [app] in Hkept.
  rewrite take_take, Nat.min_l in Hkept by lia.
  rewrite length_take, Nat.min_l in Hkept by lia.
  specialize (Hkept Hfresh Hpeek Hlong).
  eexists. split; [exact Hkept|]. split.
  - unfold pending. cbn [defragmentation]. rewrite lookup_insert_eq.
    by rewrite store_eq.
  - rewrite (parse_pending nl fuel _ s (take k buf) (drop k buf))
      by (cbn [defragmentation]; apply lookup_insert_eq).
    cbn [msg_map defragmentation].
    rewrite take_drop, delete_insert_eq, delete_id by done.
    by rewrite parse_fresh by (cbn; exact Hfresh).
Qed.

Lemma split_in_first_message_witness :
  ∃ m1,
    parse pyroute2_netlink 1 Marshal_init
          (BytesIO.store (take 10 two_messages)) (Some 7%nat)
    = Some (Return [], m1) ∧
    pending m1 7%nat = Some (take 10 two_messages) ∧
    parse pyroute2_netlink 3 m1 (BytesIO.store (drop 10 two_messages))
          (Some 7%nat)
    = parse pyroute2_netlink 3 Marshal_init (BytesIO.store two_messages)
            (Some 7%nat).
Proof.
  apply (split_in_first_message pyroute2_netlink 0 3 Marshal_init 7
           two_messages 10 20 16).
  - reflexivity.
  - vm_compute. lia.
  - vm_compute. reflexivity.
  - lia.
Defined.

(** A buffer that holds one message, not an error frame: [parse]
    returns that one message, decoded by the class registered for its
    type or, when none is registered, by the generic class, with no
    error attached on account of the missing entry; the event tag is
    the only thing [parse] adds. *)
Theorem parse_single_message
    (nl : netlink) (fuel : nat) (m : Marshal) (sock : option nat)
    (buf : list byte) (ty : Z) (d : nlmsg) (p : Z) :
  sock ≫= (λ s, defragmentation m !! s) = None →
  Struct.unpack_IH (take 6 buf) = Some (Z.of_nat (List.length buf), ty) →
  ty ≠ NLMSG_ERROR nl →
  default (nlmsg_class nl) (msg_map m !! ty) buf 0 = Decoded d p →
  msg_length d = Z.of_nat (List.length buf) →
  parse nl (2 + fuel) m (BytesIO.store buf) sock
  = Some (Return [attach_event nl (set_error None d)], m) ∧
  msg_error (attach_event nl (set_error None d)) = None.
Proof.
  intros Hfresh Hpeek Hty Hcls Hlen.
  split; [|by rewrite attach_event_error].
  assert (Hpos : (0 < List.length buf)%nat).
  { unfold Struct.unpack_IH in Hpeek. case_decide as H6; [|done].
    rewrite length_take in H6. lia. }
  rewrite parse_fresh by done. change (2 + fuel)%nat with (S (S fuel)).
  rewrite (parse_loop_step nl _ _ _ _ _ _ 0 _ _ (Z.of_nat (List.length buf))
             ty (attach_event nl (set_error None d)) p).
  - rewrite attach_event_length. cbn [msg_length set_error]. rewrite Hlen.
    rewrite parse_loop_end by (cbn [BytesIO.length]; lia). by destruct m.
  - lia.
  - by rewrite peek_eq.
  - unfold deferred. destruct sock; [|done]. cbn [BytesIO.length].
    by rewrite decide_False by lia.
  - by apply decode_at_plain.
Qed.

(** One 20-byte message of type 16, no policy registered. *)
Lemma parse_single_message_witness :
  let buf := take 20 two_messages in
  parse pyroute2_netlink 2 Marshal_init (BytesIO.store buf) (Some 7%nat)
  = Some (Return [attach_event pyroute2_netlink
                    (set_error None (decoded (nlmsg_decode buf 0)))],
          Marshal_init) ∧
  msg_error (attach_event pyroute2_netlink
               (set_error None (decoded (nlmsg_decode buf 0)))) = None.
Proof.
  intros buf.
  apply (parse_single_message pyroute2_netlink 0 Marshal_init (Some 7%nat)
           buf 16 _ 20);
    try (vm_compute; reflexivity).
  intros H; discriminate H.
Defined.

(** ** NetlinkSocket.get *)

(** A message that arrives in two datagrams, the first holding at least
    its six bytes of length and type: the first [get] returns the empty
    list and changes nothing of the socket but the buffer it keeps under
    its own key; the second [get] is then, outcome and socket, the [get]
    of the two datagrams received as one. *)
Theorem get_reassembles_datagrams
    (nl : netlink) (fuel0 fuel : nat) (self_id : nat) (sk : NetlinkSocket)
    (buf : list byte) (k : nat) (l ty : Z) :
  defragmentation (marshal sk) !! self_id = None →
  (6 ≤ k ≤ List.length buf)%nat →
  Struct.unpack_IH (take 6 buf) = Some (l, ty) →
  l > Z.of_nat k →
  ∃ s1,
    get nl (S fuel0) self_id (take k buf) sk = Some (Return [], s1) ∧
    s1 = with_marshal
           {| msg_map := msg_map (marshal sk);
              defragmentation :=
                <[self_id := BytesIO.store (take k buf)]>
                  (defragmentation (marshal sk)) |} sk ∧
    get nl fuel self_id (drop k buf) s1 = get nl fuel self_id buf sk.
Proof.
  intros Hfresh [Hk6 Hk] Hpeek Hlong.
  pose proof (partial_chunk_kept nl fuel0 (marshal sk) self_id []
                (take k buf) l ty) as Hkept.
  rewrite decide_True in Hkept by done. cbn [app] in Hkept.
  rewrite take_take, Nat.min_l in Hkept by lia.
  rewrite length_take, Nat.min_l in Hkept by lia.
  specialize (Hkept Hfresh Hpeek Hlong).
  eexists. split; [unfold get; by rewrite Hkept|]. split; [done|].
  unfold get. cbn [marshal with_marshal].
  rewrite (parse_pending nl fuel _ self_id (take k buf) (drop k buf))
    by (cbn [defragmentation]; apply lookup_insert_eq).
  cbn [msg_map defragmentation].
  rewrite take_drop, delete_insert_eq, delete_id by done.
  rewrite parse_fresh by (cbn; exact Hfresh).
  by destruct (parse_loop _ _ _ _ _ _ _ _) as [[r D]|].
Qed.

(** The first message of the two-message buffer, cut after ten bytes. *)
Lemma get_reassembles_datagrams_witness :
  let sk := NetlinkSocket_init 4242 None None in
  ∃ s1,
    get pyroute2_netlink 1 7 (take 10 two_messages) sk
    = Some (Return [], s1) ∧
    s1 = with_marshal
           {| msg_map := msg_map (marshal sk);
              defragmentation :=
                <[7%nat := BytesIO.store (take 10 two_messages)]>
                  (defragmentation (marshal sk)) |} sk ∧
    get pyroute2_netlink 3 7 (drop 10 two_messages) s1
    = get pyroute2_netlink 3 7 two_messages sk.
Proof.
  intros sk.
  apply (get_reassembles_datagrams pyroute2_netlink 0 3 7 sk
           two_messages 10 20 16).
  - reflexivity.
  - vm_compute. lia.
  - vm_compute. reflexivity.
  - lia.
Defined.
